(** * Math Booster (obsidian-math-booster): settings loading, vault event
    handlers, file utilities and note IO, embedded from the TypeScript
    sources [src/main.ts], [src/utils/obsidian.ts] and the older plugin
    entry point (class [MathPlugin]).

    Conventions of the embedding.
    - A JavaScript value is a [JS]; an object used as a dictionary is a
      [gmap string JS]; reading a missing property gives [Undefined].
    - A JavaScript string is a [string]; one character stands for one
      UTF-16 code unit, offsets count code units.
    - A function that can throw returns a [result]; a [while (true)] loop
      is run with fuel and answers [None] when the fuel runs out.
    - Constants imported from [settings/settings.ts], which is not part of
      the sources at hand, are Section variables. *)

From Stdlib Require Import ZArith QArith Qround String Ascii HexString List.
From Stdlib Require Import Floats.PrimFloat.
From stdpp Require Import gmap strings list fin_maps pretty.

#[local] Open Scope string_scope.
#[local] Open Scope Z_scope.
Set Warnings "-register-all".

(** ** JavaScript strings *)

Module JSString.

(** The first [n] code units of [s]. *)
Fixpoint take (n : nat) (s : string) : string :=
  match n, s with
  | S n', String c s' => String c (take n' s')
  | _, _ => EmptyString
  end.

(** [s] without its first [n] code units. *)
Fixpoint drop (n : nat) (s : string) : string :=
  match n, s with
  | S n', String _ s' => drop n' s'
  | _, _ => s
  end.

(** How [String.prototype.slice] reads one of its two integer arguments:
    a negative index counts from the end, and the result is clamped to
    [0 .. len]. *)
Definition relative_index (len i : Z) : Z :=
  if i <? 0 then Z.max (len + i) 0 else Z.min i len.

(** [s.slice(start, end_)]. *)
Definition slice (s : string) (start end_ : Z) : string :=
  let len := Z.of_nat (String.length s) in
  let from := relative_index len start in
  let to := relative_index len end_ in
  take (Z.to_nat (Z.max (to - from) 0)) (drop (Z.to_nat from) s).

End JSString.

(** ** Note IO ([FileIO], [NonActiveNoteIO]) *)

Module FileIO.

(** Obsidian's [Loc] and [Pos]. *)
Record Loc := { line : Z; col : Z; offset : Z }.
Record Pos := { start : Loc; end_ : Loc }.

(** The callback that [NonActiveNoteIO.setRange] hands to
    [vault.process]. *)
Definition setRange_callback (position : Pos) (text : string) (data : string) : string :=
  JSString.slice data 0 (offset (start position)) ++ text
  ++ JSString.slice data (offset (end_ position) + 1) (Z.of_nat (String.length data)).

(** What [NonActiveNoteIO.getRange] returns on a note whose cached
    content is [content]. *)
Definition getRange_content (position : Pos) (content : string) : string :=
  JSString.slice content (offset (start position)) (offset (end_ position)).

(** A range given by its two offsets (line and column play no part in
    [NonActiveNoteIO]). *)
Definition range (from to : Z) : Pos :=
  {| start := {| line := 0; col := from; offset := from |};
     end_ := {| line := 0; col := to; offset := to |} |}.

(** *** Promises on a logical clock

    A promise is observed through the tick at which it settles and the
    way it settles. *)
Inductive Settlement (A : Type) :=
| Fulfilled (value : A)
| Rejected (reason : string).
Arguments Fulfilled {A} value.
Arguments Rejected {A} reason.

Record Promise (A : Type) := { settled_at : nat; settlement : Settlement A }.
Arguments settled_at {A} _.
Arguments settlement {A} _.

(** The document store behind [app.vault], for one file: its content,
    whether the next write fails, and how many ticks a store operation
    takes beyond the one tick every asynchronous host call needs. *)
Record Vault := { content : string; write_fails : bool; latency : nat }.

(** [vault.process(file, fn)]: reads the content, applies [fn] and writes
    the result back. The returned promise settles strictly after the call,
    fulfilled with the new content, or rejected when the write fails (the
    content is then unchanged). *)
Definition vault_process (v : Vault) (now : nat) (fn : string -> string) : Vault * Promise string :=
  let done := (now + S (latency v))%nat in
  if write_fails v
  then (v, {| settled_at := done; settlement := Rejected "write failed" |})
  else
    let data := fn (content v) in
    ({| content := data; write_fails := false; latency := latency v |},
     {| settled_at := done; settlement := Fulfilled data |}).

(** [vault.cachedRead(file)]. *)
Definition vault_cachedRead (v : Vault) (now : nat) : Promise string :=
  {| settled_at := (now + S (latency v))%nat; settlement := Fulfilled (content v) |}.

(** An [async] method whose body awaits nothing and returns nothing: its
    promise is fulfilled with [undefined] as soon as the body has run. *)
Definition async_return_void (now : nat) : Promise unit :=
  {| settled_at := now; settlement := Fulfilled tt |}.

(** [await p] followed by [return k(value)]: the method's promise settles
    when [p] does, and a rejection of [p] rejects it. *)
Definition async_await_return {A B : Type} (p : Promise A) (k : A -> B) : Promise B :=
  {| settled_at := settled_at p;
     settlement := match settlement p with
                   | Fulfilled a => Fulfilled (k a)
                   | Rejected r => Rejected r
                   end |}.

(** [NonActiveNoteIO.setRange]: the promise of [vault.process] is neither
    awaited nor returned. The pair is the store after the write and the
    promise of that write; the last component is the promise the caller
    of [setRange] gets. *)
Definition NonActiveNoteIO_setRange (v : Vault) (now : nat) (position : Pos) (text : string)
  : Vault * Promise string * Promise unit :=
  (vault_process v now (setRange_callback position text), async_return_void now).

(** [NonActiveNoteIO.getRange]. *)
Definition NonActiveNoteIO_getRange (v : Vault) (now : nat) (position : Pos) : Promise string :=
  async_await_return (vault_cachedRead v now) (getRange_content position).

Section Lines.

(** [splitIntoLines] and [insertAt] of [utils/general.ts]. *)
Variable splitIntoLines : string -> list string.
Variable insertAt : list string -> string -> nat -> list string.

(** [lines.join('\n')]. *)
Fixpoint join_lines (lines : list string) : string :=
  match lines with
  | [] => EmptyString
  | [l] => l
  | l :: rest => l ++ String "010"%char (join_lines rest)
  end.

(** [lines[lineNumber] = text], as [join] sees the array afterwards: an
    index past the end leaves holes, which [join] prints as empty
    strings. *)
Definition set_index (lines : list string) (lineNumber : nat) (text : string) : list string :=
  if (lineNumber <? length lines)%nat
  then <[lineNumber := text]> lines
  else lines ++ replicate (lineNumber - length lines) EmptyString ++ [text].

Definition setLine_callback (lineNumber : nat) (text : string) (data : string) : string :=
  join_lines (set_index (splitIntoLines data) lineNumber text).

Definition insertLine_callback (lineNumber : nat) (text : string) (data : string) : string :=
  join_lines (insertAt (splitIntoLines data) text lineNumber).

(** [NonActiveNoteIO.setLine]. *)
Definition NonActiveNoteIO_setLine (v : Vault) (now : nat) (lineNumber : nat) (text : string)
  : Vault * Promise string * Promise unit :=
  (vault_process v now (setLine_callback lineNumber text), async_return_void now).

(** [NonActiveNoteIO.insertLine]. *)
Definition NonActiveNoteIO_insertLine (v : Vault) (now : nat) (lineNumber : nat) (text : string)
  : Vault * Promise string * Promise unit :=
  (vault_process v now (insertLine_callback lineNumber text), async_return_void now).

End Lines.

End FileIO.

(** ** JavaScript values *)

(** The values that persisted plugin data and the settings tables hold.
    [JSON.parse] yields every constructor but [Undefined], which is what
    reading a missing property gives. *)
Inductive JS :=
| Undefined
| JNull
| JBool (b : bool)
| JNum (x : float)
| JStr (s : string)
| JArr (elems : list JS)
| JObj (props : gmap string JS).

(** The answers of [typeof] on such values. *)
Inductive JSType := TUndefined | TObject | TBoolean | TNumber | TString.

#[global] Instance JSType_eq_dec : EqDecision JSType.
Proof. solve_decision. Defined.

Definition typeof (v : JS) : JSType :=
  match v with
  | Undefined => TUndefined
  | JNull | JArr _ | JObj _ => TObject
  | JBool _ => TBoolean
  | JNum _ => TNumber
  | JStr _ => TString
  end.

(** Truthiness, as [if (loadedData)] tests it. *)
Definition truthy (v : JS) : bool :=
  match v with
  | Undefined | JNull => false
  | JBool b => b
  | JNum x => negb (PrimFloat.is_zero x || PrimFloat.is_nan x)
  | JStr s => negb (String.eqb s EmptyString)
  | JArr _ | JObj _ => true
  end.

(** SameValueZero, the comparison of [Array.prototype.includes]. Objects
    and arrays are compared by identity, and a parsed value is never the
    same object as an entry of a constant table. *)
Definition same_value_zero (a b : JS) : bool :=
  match a, b with
  | Undefined, Undefined | JNull, JNull => true
  | JBool x, JBool y => Bool.eqb x y
  | JNum x, JNum y => PrimFloat.eqb x y || (PrimFloat.is_nan x && PrimFloat.is_nan y)
  | JStr s, JStr t => String.eqb s t
  | _, _ => false
  end.

(** [allowableValues.includes(val)]. *)
Definition includes (allowableValues : list JS) (val : JS) : bool :=
  existsb (fun x => same_value_zero x val) allowableValues.

Inductive error := TypeError.

(** The outcome of code that may throw. *)
Inductive result (A : Type) :=
| Ok (a : A)
| Throw (e : error).
Arguments Ok {A} a.
Arguments Throw {A} e.

#[global] Instance result_ret : MRet result := fun A a => Ok a.
#[global] Instance result_bind : MBind result := fun A B f m =>
  match m with
  | Ok a => f a
  | Throw e => Throw e
  end.

(** [o[key]] for the keys the plugin reads (setting names and the three
    fields of the persisted data), none of which is an index or names a
    built-in property: reading from [undefined] or [null] throws, an
    object answers with its own property, any other value with
    [undefined]. *)
Definition get (o : JS) (key : string) : result JS :=
  match o with
  | Undefined | JNull => Throw TypeError
  | JObj props => Ok (default Undefined (props !! key))
  | JBool _ | JNum _ | JStr _ | JArr _ => Ok Undefined
  end.

(** [undefined] and [null]. *)
Definition nullish (v : JS) : Prop := v = Undefined \/ v = JNull.

(** The own enumerable properties of a value, each with the value read
    back under its key: what [for (const k in v)] visits and what
    [Object.assign] copies. A string has one property per code unit, an
    array one per element. The keys of an object come in the order of
    [map_to_list], not in JavaScript's (index-like keys first, then
    insertion order); the loops below build the same table in any order
    ([load_paths_any_order]). *)
Definition own_entries (v : JS) : list (string * JS) :=
  match v with
  | JObj props => map_to_list props
  | JArr elems => imap (fun i x => (pretty i, x)) elems
  | JStr s => imap (fun i c => (pretty i, JStr (String c EmptyString))) (list_ascii_of_string s)
  | Undefined | JNull | JBool _ | JNum _ => []
  end.

Definition VAULT_ROOT : string := "/".

(** ** Loading the settings ([MathBooster.loadSettings], [MathPlugin.loadSettings]) *)

Section Settings.

(** The four constants of [settings/settings.ts]: the default values
    (plain JSON data, so that their JSON round trip is a copy of them) and,
    for the keys whose values form a fixed enumeration, the allowed
    values. *)
Variable DEFAULT_SETTINGS : gmap string JS.
Variable UNION_TYPE_MATH_CONTEXT_SETTING_KEYS : gmap string (list JS).
Variable DEFAULT_EXTRA_SETTINGS : gmap string JS.
Variable UNION_TYPE_EXTRA_SETTING_KEYS : gmap string (list JS).

(** The fields of the plugin that [loadSettings] sets. *)
Record MathBooster := {
  settings : gmap string JS;
  extraSettings : gmap string JS;
  excludedFiles : JS
}.

(** The body of [if (val !== undefined) { ... }] in both loops of
    [loadSettings], up to the assignment: the value to assign under [key],
    if any. *)
Definition checked_value (defaults : gmap string JS) (unions : gmap string (list JS))
    (key : string) (val : JS) : option JS :=
  match val with
  | Undefined => None
  | _ =>
      let val' :=
        match unions !! key with
        | Some allowableValues =>
            if includes allowableValues val then val
            else default Undefined (defaults !! key)
        | None => val
        end in
      if decide (typeof val' = typeof (default Undefined (defaults !! key)))
      then Some val' else None
  end.

(** [this.settings[path][key] = val]. *)
Definition assign (tbl : gmap string JS) (path key : string) (val : JS) : result (gmap string JS) :=
  match tbl !! path with
  | Some (JObj props) => Ok (<[path := JObj (<[key := val]> props)]> tbl)
  | _ => Throw TypeError
  end.

(** The loop [for (const _key in DEFAULT_SETTINGS)] for one path, where
    [entry] is [settings[path]]. *)
Fixpoint load_keys (tbl : gmap string JS) (path : string) (entry : JS) (keys : list string)
  : result (gmap string JS) :=
  match keys with
  | [] => Ok tbl
  | key :: rest =>
      val ← get entry key;
      tbl' ← match checked_value DEFAULT_SETTINGS UNION_TYPE_MATH_CONTEXT_SETTING_KEYS key val with
             | Some v => assign tbl path key v
             | None => Ok tbl
             end;
      load_keys tbl' path entry rest
  end.

(** One round of the loop [for (const path in settings)]. *)
Definition load_path (tbl : gmap string JS) (path : string) (entry : JS) : result (gmap string JS) :=
  let tbl := if decide (path ≠ VAULT_ROOT) then <[path := JObj ∅]> tbl else tbl in
  load_keys tbl path entry (map_to_list DEFAULT_SETTINGS).*1.

Fixpoint load_paths (tbl : gmap string JS) (entries : list (string * JS)) : result (gmap string JS) :=
  match entries with
  | [] => Ok tbl
  | (path, entry) :: rest =>
      tbl' ← load_path tbl path entry;
      load_paths tbl' rest
  end.

(** The loop [for (const _key in DEFAULT_EXTRA_SETTINGS)]. *)
Fixpoint load_extra (extra : gmap string JS) (source : JS) (keys : list string)
  : result (gmap string JS) :=
  match keys with
  | [] => Ok extra
  | key :: rest =>
      val ← get source key;
      load_extra
        match checked_value DEFAULT_EXTRA_SETTINGS UNION_TYPE_EXTRA_SETTING_KEYS key val with
        | Some v => <[key := v]> extra
        | None => extra
        end source rest
  end.

(** [MathBooster.loadSettings], given what [loadData()] resolves to
    ([null] when nothing is persisted). *)
Definition loadSettings (loadedData : JS) : result MathBooster :=
  let settings0 : gmap string JS := {[ VAULT_ROOT := JObj DEFAULT_SETTINGS ]} in
  if truthy loadedData then
    settings ← get loadedData "settings";
    extraSettings ← get loadedData "extraSettings";
    excludedFiles ← get loadedData "excludedFiles";
    tbl ← load_paths settings0 (own_entries settings);
    extra ← load_extra DEFAULT_EXTRA_SETTINGS extraSettings (map_to_list DEFAULT_EXTRA_SETTINGS).*1;
    Ok {| settings := tbl; extraSettings := extra; excludedFiles := excludedFiles |}
  else
    Ok {| settings := settings0; extraSettings := DEFAULT_EXTRA_SETTINGS; excludedFiles := JArr [] |}.

(** [Object.assign(target, source)]: every own enumerable property of
    [source] is set on [target]; [undefined] and [null] have none. *)
Definition Object_assign (target : gmap string JS) (source : JS) : gmap string JS :=
  foldl (fun m kv => <[kv.1 := kv.2]> m) target (own_entries source).

(** [MathPlugin.loadSettings], the older entry point: the settings table
    and the list of excluded files it sets. *)
Definition MathPlugin_loadSettings (loadedData : JS) : result (gmap string JS * JS) :=
  let root : gmap string JS := {[ VAULT_ROOT := JObj DEFAULT_SETTINGS ]} in
  if truthy loadedData then
    settings ← get loadedData "settings";
    excludedFiles ← get loadedData "excludedFiles";
    Ok (Object_assign (Object_assign ∅ (JObj root)) settings, excludedFiles)
  else
    Ok (Object_assign (Object_assign ∅ (JObj root)) Undefined, JArr []).

(** *** What the loaded table is expected to satisfy *)

(** What one path's entry holds under [key] after its round of the
    loop, given what it held before ([base]) and the persisted [entry]. *)
Definition merged (base : gmap string JS) (entry : JS) (key : string) : option JS :=
  match DEFAULT_SETTINGS !! key, get entry key with
  | Some _, Ok val =>
      match checked_value DEFAULT_SETTINGS UNION_TYPE_MATH_CONTEXT_SETTING_KEYS key val with
      | Some v => Some v
      | None => base !! key
      end
  | _, _ => base !! key
  end.

(** Every value of the table is an object whose keys are setting keys
    and whose values have the type of the default. *)
Definition well_typed (tbl : gmap string JS) : Prop :=
  forall path v, tbl !! path = Some v ->
    exists props, v = JObj props /\
      forall key val, props !! key = Some val ->
        exists d, DEFAULT_SETTINGS !! key = Some d /\ typeof val = typeof d.

(** The entry of the vault root sets every setting key, with a value of
    the default's type. *)
Definition root_sets_every_key (tbl : gmap string JS) : Prop :=
  exists props, tbl !! VAULT_ROOT = Some (JObj props) /\
    forall key d, DEFAULT_SETTINGS !! key = Some d ->
      exists val, props !! key = Some val /\ typeof val = typeof d.

(** Persisted settings that [loadSettings] copies as they are: every
    entry is an object, its keys are setting keys, its values have the
    type of the default and, for an enumerated key, are allowed; an entry
    for the vault root sets every key. *)
Definition clean (settings : gmap string JS) : Prop :=
  forall path v, settings !! path = Some v ->
    exists entry, v = JObj entry
      /\ (forall key val, entry !! key = Some val ->
            val <> Undefined
            /\ (exists d, DEFAULT_SETTINGS !! key = Some d /\ typeof val = typeof d)
            /\ (forall allowableValues,
                  UNION_TYPE_MATH_CONTEXT_SETTING_KEYS !! key = Some allowableValues ->
                  includes allowableValues val = true))
      /\ (path = VAULT_ROOT ->
            forall key, is_Some (DEFAULT_SETTINGS !! key) -> is_Some (entry !! key)).

(** What the loop over the paths keeps true of the table. *)
Definition table_invariant (tbl : gmap string JS) : Prop :=
  well_typed tbl /\ root_sets_every_key tbl.

End Settings.

(** A small instance of the four constants, in the shape of
    [settings/settings.ts], for running the loaders. *)
Module Sample.

Definition DEFAULT_SETTINGS : gmap string JS :=
  <["numberStyle" := JStr "arabic"]> (<["lineByLine" := JBool true]> (<["numberInit" := JNum 1%float]> ∅)).

Definition UNION_TYPE_MATH_CONTEXT_SETTING_KEYS : gmap string (list JS) :=
  {[ "numberStyle" := [JStr "arabic"; JStr "alph"; JStr "Alph"; JStr "roman"; JStr "Roman"] ]}.

Definition DEFAULT_EXTRA_SETTINGS : gmap string JS :=
  <["triggerSuggest" := JStr "\ref"]> (<["searchMethod" := JStr "Fuzzy"]> ∅).

Definition UNION_TYPE_EXTRA_SETTING_KEYS : gmap string (list JS) :=
  {[ "searchMethod" := [JStr "Fuzzy"; JStr "Simple"] ]}.

Definition loadSettings : JS -> result MathBooster :=
  loadSettings DEFAULT_SETTINGS UNION_TYPE_MATH_CONTEXT_SETTING_KEYS
    DEFAULT_EXTRA_SETTINGS UNION_TYPE_EXTRA_SETTING_KEYS.

Definition MathPlugin_loadSettings : JS -> result (gmap string JS * JS) :=
  MathPlugin_loadSettings DEFAULT_SETTINGS.

(** Persisted data: [{ settings: s, extraSettings: {}, excludedFiles: [] }]. *)
Definition persisted (s : gmap string JS) : JS :=
  JObj (<["settings" := JObj s]> (<["extraSettings" := JObj ∅]> (<["excludedFiles" := JArr []]> ∅))).

End Sample.

(** ** Vault events: the rename and delete handlers of [onload] *)

Module Events.

(** [array.indexOf(x)] on an array of strings: the first index holding
    [x], or [-1]. *)
Fixpoint indexOf (array : list string) (x : string) : Z :=
  match array with
  | [] => -1
  | y :: rest =>
      if decide (y = x) then 0
      else let index := indexOf rest x in
           if index <? 0 then -1 else index + 1
  end.

(** [array.splice(index, 1)] for an index that [indexOf] found. *)
Definition splice1 (array : list string) (index : Z) : list string :=
  delete (Z.to_nat index) array.

(** The two fields the handlers work on, [excludedFiles] at its declared
    type [string[]]. *)
Record State := {
  settings : gmap string JS;
  excludedFiles : list string
}.

(** [this.settings[path]]: a missing key reads as [undefined]. *)
Definition read (settings : gmap string JS) (path : string) : JS :=
  default Undefined (settings !! path).

(** The handler of ["rename"], called with the renamed file (whose
    [path] is already the new one) and its old path. *)
Definition on_rename (st : State) (file_path oldPath : string) : State :=
  let settings1 := <[file_path := read (settings st) oldPath]> (settings st) in
  let settings2 := delete oldPath settings1 in
  let index := indexOf (excludedFiles st) oldPath in
  {| settings := settings2;
     excludedFiles :=
       if index >=? 0
       then splice1 (excludedFiles st) index ++ [file_path]
       else excludedFiles st |}.

(** The handler of ["delete"]. *)
Definition on_delete (st : State) (file_path : string) : State :=
  let settings' :=
    if decide (is_Some (settings st !! file_path))
    then delete file_path (settings st)
    else settings st in
  let index := indexOf (excludedFiles st) file_path in
  {| settings := settings';
     excludedFiles :=
       if index >=? 0
       then splice1 (excludedFiles st) index
       else excludedFiles st |}.

(** The events the two handlers are registered for. *)
Inductive event :=
| Rename (file_path oldPath : string)
| Delete (file_path : string).

Definition handle (st : State) (ev : event) : State :=
  match ev with
  | Rename file_path oldPath => on_rename st file_path oldPath
  | Delete file_path => on_delete st file_path
  end.

(** No path that the event carries is the path of the vault root. *)
Definition avoids_root (ev : event) : Prop :=
  match ev with
  | Rename file_path oldPath => file_path <> VAULT_ROOT /\ oldPath <> VAULT_ROOT
  | Delete file_path => file_path <> VAULT_ROOT
  end.

(** How many times [x] occurs in [array]. *)
Fixpoint occurrences (x : string) (array : list string) : nat :=
  match array with
  | [] => 0
  | y :: rest => ((if decide (y = x) then 1 else 0) + occurrences x rest)%nat
  end.

End Events.

(** ** File utilities ([isEqualToOrChildOf]) *)

Module FileTree.

Section Tree.

(** The files and folders of a vault, as object identities, with the
    three things the function asks of them: [file.parent] ([None] for
    [null]), [file instanceof TFolder] and [folder.isRoot()]. *)
Context {TAbstractFile : Type} `{EqDecision TAbstractFile}.
Variable parent : TAbstractFile -> option TAbstractFile.
Variable isFolder : TAbstractFile -> bool.
Variable isRoot : TAbstractFile -> bool.

(** The loop [while (true)] over [ancestor]; one unit of fuel per
    round, [None] when the fuel is spent before a [return]. *)
Fixpoint ancestor_loop (fuel : nat) (ancestor : option TAbstractFile) (file2 : TAbstractFile)
  : option bool :=
  match fuel with
  | O => None
  | S fuel' =>
      if decide (ancestor = Some file2) then Some true
      else
        match ancestor with
        | Some a =>
            if isRoot a then Some false
            else ancestor_loop fuel' (parent a) file2
        | None => ancestor_loop fuel' ancestor file2
        end
  end.

Definition isEqualToOrChildOf (fuel : nat) (file1 file2 : TAbstractFile) : option bool :=
  if decide (file1 = file2) then Some true
  else if isFolder file2 && isRoot file2 then Some true
  else ancestor_loop fuel (parent file1) file2.

(** The loop [while (ancestor)] of [getAncestors], one unit of fuel per
    test of its condition. The test before [break] is on [file], the
    argument, not on [ancestor]. *)
Fixpoint getAncestors_loop (fuel : nat) (file : TAbstractFile)
    (ancestor : option TAbstractFile) (ancestors : list TAbstractFile)
  : option (list TAbstractFile) :=
  match fuel with
  | O => None
  | S fuel' =>
      match ancestor with
      | None => Some ancestors
      | Some a =>
          let ancestors := (ancestors ++ [a])%list in
          if isFolder file && isRoot file then Some ancestors
          else getAncestors_loop fuel' file (parent a) ancestors
      end
  end.

(** [getAncestors(file)]. *)
Definition getAncestors (fuel : nat) (file : TAbstractFile) : option (list TAbstractFile) :=
  reverse <$> getAncestors_loop fuel file (Some file) [].

(** The chain of parents that starts at [ancestor] reaches [null] after
    exactly [n] files. *)
Fixpoint ends_after (n : nat) (ancestor : option TAbstractFile) : Prop :=
  match n, ancestor with
  | O, None => True
  | S n', Some a => ends_after n' (parent a)
  | _, _ => False
  end.

(** The first [n] files of the chain of parents that starts at
    [ancestor]. *)
Fixpoint parents_chain (n : nat) (ancestor : option TAbstractFile) : list TAbstractFile :=
  match n, ancestor with
  | S n', Some a => a :: parents_chain n' (parent a)
  | _, _ => []
  end.

(** The chain of parents that starts at [ancestor] reaches [null] after
    [n] files without meeting [file2] or a root folder. *)
Fixpoint detached_after (n : nat) (file2 : TAbstractFile)
    (ancestor : option TAbstractFile) : Prop :=
  match n, ancestor with
  | O, None => True
  | S n', Some a => a <> file2 /\ isRoot a = false /\ detached_after n' file2 (parent a)
  | _, _ => False
  end.

(** [a] is a proper ancestor of [f]. *)
Inductive proper_ancestor (a : TAbstractFile) : TAbstractFile -> Prop :=
| ancestor_parent f : parent f = Some a -> proper_ancestor a f
| ancestor_step f p : parent f = Some p -> proper_ancestor a p -> proper_ancestor a f.

(** The chain of parents that starts at [ancestor] meets its first root
    folder after [n] steps. *)
Fixpoint root_after (n : nat) (ancestor : option TAbstractFile) : Prop :=
  match ancestor with
  | None => False
  | Some a =>
      match n with
      | O => isRoot a = true
      | S n' => isRoot a = false /\ root_after n' (parent a)
      end
  end.

End Tree.

(** A vault with a root folder and one note in it. *)
Inductive file := root_folder | note.

(** A vault with a root folder, a folder in it and a note in that
    folder; beside it a folder that has no parent and is no root, with a
    note in it. *)
Inductive file3 := vault_root | chapter | page | attic | relic.

#[global] Instance file_eq_dec : EqDecision file.
Proof. solve_decision. Defined.

Definition file_parent (f : file) : option file :=
  match f with
  | root_folder => None
  | note => Some root_folder
  end.

Definition file_isFolder (f : file) : bool :=
  match f with root_folder => true | note => false end.

Definition file_isRoot (f : file) : bool :=
  match f with root_folder => true | note => false end.

#[global] Instance file3_eq_dec : EqDecision file3.
Proof. solve_decision. Defined.

Definition file3_parent (f : file3) : option file3 :=
  match f with
  | vault_root | attic => None
  | chapter => Some vault_root
  | page => Some chapter
  | relic => Some attic
  end.

Definition file3_isFolder (f : file3) : bool :=
  match f with vault_root | chapter | attic => true | page | relic => false end.

Definition file3_isRoot (f : file3) : bool :=
  match f with vault_root => true | _ => false end.

End FileTree.

(** ** Block identifiers ([generateBlockID]) *)

Module BlockID.

(** The part of [CachedMetadata] that [generateBlockID] reads: the
    optional dictionary [blocks], whose values play no part. *)
Record BlockCache := { id : string; position : FileIO.Pos }.
Record CachedMetadata := { blocks : option (gmap string BlockCache) }.

(** [n.toString(16)] for an integer [n]. *)
Definition toString16 (n : Z) : string :=
  match n with
  | Z0 => "0"
  | Zpos p => HexString.Raw.of_pos p EmptyString
  | Zneg p => "-" ++ HexString.Raw.of_pos p EmptyString
  end.

(** [Math.floor(Math.random() * 16).toString(16)], where [r] is the
    value of [Math.random()]; multiplying a double by 16 is exact, so the
    rational product is the double one. *)
Definition random_digit (r : Q) : string :=
  toString16 (Qfloor (r * 16)).

(** [[...Array(length)].map(() => ...).join('')], drawing from the
    sequence [random] of the values of [Math.random()], from [next] on. *)
Fixpoint random_digits (random : nat -> Q) (next length : nat) : string :=
  match length with
  | O => EmptyString
  | S n => random_digit (random next) ++ random_digits random (S next) n
  end.

(** [cache?.blocks && id in cache.blocks]. *)
Definition taken (cache : CachedMetadata) (id : string) : bool :=
  match blocks cache with
  | Some b => bool_decide (is_Some (b !! id))
  | None => false
  end.

(** The loop [while (true)], one unit of fuel per round. *)
Fixpoint generate_loop (fuel : nat) (random : nat -> Q) (next : nat)
    (cache : CachedMetadata) (length : nat) : option string :=
  match fuel with
  | O => None
  | S fuel' =>
      let id := random_digits random next length in
      if taken cache id
      then generate_loop fuel' random (next + length) cache length
      else Some id
  end.

(** [generateBlockID(cache, length)]; [length] is [None] when the
    argument is omitted. [Array(length)] asks for a natural number. *)
Definition generateBlockID (fuel : nat) (random : nat -> Q)
    (cache : CachedMetadata) (length : option nat) : option string :=
  generate_loop fuel random 0 cache (default 6%nat length).

(** Lowercase hexadecimal digits. *)
Definition is_lower_hex (c : ascii) : bool :=
  let n := nat_of_ascii c in
  ((48 <=? n) && (n <=? 57) || (97 <=? n) && (n <=? 102))%nat.

Fixpoint all_lower_hex (s : string) : bool :=
  match s with
  | EmptyString => true
  | String c s' => is_lower_hex c && all_lower_hex s'
  end.

(** A sequence of draws that walks through the sixteen digits. *)
Definition cycle16 (n : nat) : Q := (Z.of_nat (n mod 16) # 16).

End BlockID.

(** ** Saving the settings ([saveSettings]) *)

(** What [MathBooster.saveSettings] hands to [saveData], [version] being
    [this.manifest.version]. [loadData] gives it back at the next start,
    the JSON round trip in between being a copy for the JSON data that the
    tables hold. *)
Definition saveSettings (version : string) (st : MathBooster) : JS :=
  JObj (<["version" := JStr version]>
          (<["settings" := JObj (settings st)]>
             (<["extraSettings" := JObj (extraSettings st)]>
                (<["excludedFiles" := excludedFiles st]> ∅)))).

(** Defaults as [settings/settings.ts] is expected to give them: no
    default is [undefined], and the default of an enumerated key is one of
    its allowed values. *)
Definition valid_defaults (defaults : gmap string JS) (unions : gmap string (list JS)) : Prop :=
  forall key d, defaults !! key = Some d ->
    d <> Undefined
    /\ forall allowableValues, unions !! key = Some allowableValues ->
         includes allowableValues d = true.

(** What [MathPlugin.saveSettings], the older one, hands to [saveData]. *)
Definition MathPlugin_saveSettings (st : gmap string JS * JS) : JS :=
  JObj (<["settings" := JObj st.1]> (<["excludedFiles" := st.2]> ∅)).

(** ** Descendants ([iterDescendantFiles]) *)

Module Descendants.

(** A file or a folder with its children ([TFile], [TFolder]), named by
    its path. *)
Inductive TAbstractFile :=
| TFile (path : string)
| TFolder (path : string) (children : list TAbstractFile).

(** [iterDescendantFiles(file, callback)]; the callback acts on a state
    [S] and is handed the path of the file it is called for. *)
Fixpoint iterDescendantFiles {S : Type} (file : TAbstractFile)
    (callback : string -> S -> S) (s : S) : S :=
  match file with
  | TFile path => callback path s
  | TFolder _ children =>
      foldl (fun s child => iterDescendantFiles child callback s) s children
  end.

(** The files below [file], itself included, from left to right. *)
Fixpoint files (file : TAbstractFile) : list string :=
  match file with
  | TFile path => [path]
  | TFolder _ children => concat (map files children)
  end.

End Descendants.

(** ** Metadata cache ([getSectionCacheFromPos], [getProperty],
    [getPropertyLink], [getPropertyOrLinkTextInProperty]) *)

Module Cache.

(** The parts of [CachedMetadata] that the three functions read. *)
Record SectionCache := { type : string; position : FileIO.Pos }.
Record FrontmatterLinkCache := { key : string; link : string }.
Record CachedMetadata := {
  sections : option (list SectionCache);
  frontmatter : option (gmap string JS);
  frontmatterLinks : option (list FrontmatterLinkCache)
}.

(** The test of [find] in [getSectionCacheFromPos]. *)
Definition at_boundary (pos : Z) (type' : string) (sectionCache : SectionCache) : bool :=
  String.eqb (type sectionCache) type'
  && ((FileIO.offset (FileIO.start (position sectionCache)) =? pos)
      || (FileIO.offset (FileIO.end_ (position sectionCache)) =? pos)).

(** [getSectionCacheFromPos(cache, pos, type)]; [None] is
    [undefined]. *)
Definition getSectionCacheFromPos (cache : CachedMetadata) (pos : Z) (type' : string)
  : option SectionCache :=
  match sections cache with
  | Some sections => find (at_boundary pos type') sections
  | None => None
  end.

Section App.

(** [app.metadataCache.getFileCache], on files named by their path. *)
Variable getFileCache : string -> option CachedMetadata.

(** [getProperty(app, file, name)]. *)
Definition getProperty (file name : string) : JS :=
  match getFileCache file with
  | Some cache =>
      match frontmatter cache with
      | Some properties => default Undefined (properties !! name)
      | None => Undefined
      end
  | None => Undefined
  end.

(** [getPropertyLink(app, file, name)]. *)
Definition getPropertyLink (file name : string) : option FrontmatterLinkCache :=
  match getFileCache file with
  | Some cache =>
      match frontmatterLinks cache with
      | Some links => find (fun l => String.eqb (key l) name) links
      | None => None
      end
  | None => None
  end.

(** [getPropertyOrLinkTextInProperty(app, file, name)]. *)
Definition getPropertyOrLinkTextInProperty (file name : string) : JS :=
  match getPropertyLink file name with
  | Some l => JStr (link l)
  | None => getProperty file name
  end.

End App.

End Cache.

(** ** Concrete inputs *)

Module Examples.

(** Persisted settings with an invalid numbering style, an unknown key
    and a value of the wrong type for the note [a.md]. *)
Definition dirty_settings : gmap string JS :=
  {[ "a.md" := JObj (<["numberStyle" := JStr "bogus"]>
                      (<["foo" := JNum 2%float]> (<["lineByLine" := JStr "yes"]> ∅))) ]}.

(** Persisted settings that hold one valid override for [a.md]. *)
Definition clean_settings : gmap string JS :=
  {[ "a.md" := JObj {[ "lineByLine" := JBool false ]} ]}.

Definition default_state : MathBooster :=
  {| settings := {[ VAULT_ROOT := JObj Sample.DEFAULT_SETTINGS ]};
     extraSettings := Sample.DEFAULT_EXTRA_SETTINGS;
     excludedFiles := JArr [] |}.

Definition dirty_state : MathBooster :=
  {| settings := <["a.md" := JObj {[ "numberStyle" := JStr "arabic" ]}]>
                   {[ VAULT_ROOT := JObj Sample.DEFAULT_SETTINGS ]};
     extraSettings := Sample.DEFAULT_EXTRA_SETTINGS;
     excludedFiles := JArr [] |}.

(** A state in which [a.md] has an override and is excluded. *)
Definition renamed_state : Events.State :=
  {| Events.settings := {[ "a.md" := JObj {[ "lineByLine" := JBool false ]} ]};
     Events.excludedFiles := ["a.md"; "c.md"] |}.


(** A state in which [a.md] is listed twice. *)
Definition twice_state : Events.State :=
  {| Events.settings := ∅; Events.excludedFiles := ["a.md"; "a.md"] |}.

(** A cache in which the first candidate drawn from [cycle16] is
    already a block identifier. *)
Definition busy_cache : BlockID.CachedMetadata :=
  {| BlockID.blocks :=
       Some {[ "012345" := {| BlockID.id := "012345"; BlockID.position := FileIO.range 0 10 |} ]} |}.

(** What [loadSettings] makes of [clean_settings]. *)
Definition clean_state : MathBooster :=
  {| settings := <["a.md" := JObj {[ "lineByLine" := JBool false ]}]>
                   {[ VAULT_ROOT := JObj Sample.DEFAULT_SETTINGS ]};
     extraSettings := Sample.DEFAULT_EXTRA_SETTINGS;
     excludedFiles := JArr [] |}.

(** Persisted settings in which the entry of [b.md] is a string. *)
Definition odd_settings : gmap string JS := {[ "b.md" := JStr "x" ]}.

Definition odd_state : MathBooster :=
  {| settings := <["b.md" := JObj ∅]> {[ VAULT_ROOT := JObj Sample.DEFAULT_SETTINGS ]};
     extraSettings := Sample.DEFAULT_EXTRA_SETTINGS;
     excludedFiles := JArr [] |}.

(** Persisted data with extra settings: a valid search method and a
    trigger of the wrong type. *)
Definition extra_settings : gmap string JS :=
  <["searchMethod" := JStr "Simple"]> (<["triggerSuggest" := JNum 1%float]> ∅).

Definition extra_data : JS :=
  JObj (<["settings" := JObj ∅]>
          (<["extraSettings" := JObj extra_settings]> (<["excludedFiles" := JArr []]> ∅))).

Definition extra_state : MathBooster :=
  {| settings := {[ VAULT_ROOT := JObj Sample.DEFAULT_SETTINGS ]};
     extraSettings := <["searchMethod" := JStr "Simple"]> Sample.DEFAULT_EXTRA_SETTINGS;
     excludedFiles := JArr [] |}.


End Examples.

(** * Properties *)

(** ** Note IO *)

Module FileIO_facts.
Import FileIO.

(** *** Reading a range and writing it back *)

Lemma append_cons (c : ascii) (s t : string) : String c s ++ t = String c (s ++ t).
Proof. reflexivity. Qed.

Lemma append_empty_r (s : string) : s ++ EmptyString = s.
Proof. induction s as [|c s IH]; [reflexivity | now rewrite append_cons, IH]. Qed.

Lemma take_drop (n : nat) (s : string) : JSString.take n s ++ JSString.drop n s = s.
Proof.
  revert s; induction n as [|n IH]; intros [|c s]; simpl; try reflexivity.
  now rewrite append_cons, IH.
Qed.

Lemma take_all (n : nat) (s : string) :
  (String.length s <= n)%nat -> JSString.take n s = s.
Proof.
  revert s; induction n as [|n IH]; intros [|c s]; simpl; intros H;
    try reflexivity; try lia.
  rewrite IH; [reflexivity | lia].
Qed.

Lemma drop_all (n : nat) (s : string) :
  (String.length s <= n)%nat -> JSString.drop n s = EmptyString.
Proof.
  revert s; induction n as [|n IH]; intros [|c s]; simpl; intros H;
    try reflexivity; try lia.
  apply IH; lia.
Qed.

Lemma take_plus (n m : nat) (s : string) :
  JSString.take (n + m) s = JSString.take n s ++ JSString.take m (JSString.drop n s).
Proof.
  revert s; induction n as [|n IH]; intros s; simpl.
  - destruct m, s; reflexivity.
  - destruct s as [|c s]; simpl; [now destruct m | now rewrite append_cons, IH].
Qed.

Lemma length_take (n : nat) (s : string) :
  String.length (JSString.take n s) = Nat.min n (String.length s).
Proof.
  revert s; induction n as [|n IH]; intros [|c s]; simpl; try reflexivity.
  now rewrite IH.
Qed.

Lemma length_drop (n : nat) (s : string) :
  String.length (JSString.drop n s) = (String.length s - n)%nat.
Proof.
  revert s; induction n as [|n IH]; intros [|c s]; simpl; try reflexivity.
  apply IH.
Qed.

Lemma length_append (s t : string) :
  String.length (s ++ t) = (String.length s + String.length t)%nat.
Proof.
  induction s as [|c s IH]; [reflexivity|].
  rewrite append_cons; simpl. now rewrite IH.
Qed.

Lemma append_assoc (s t u : string) : (s ++ t) ++ u = s ++ (t ++ u).
Proof.
  induction s as [|c s IH]; [reflexivity|].
  now rewrite !append_cons, IH.
Qed.

(** On a range [a .. b] inside the content, writing back what was read
    keeps everything except the code unit at offset [b]: [setRange] resumes
    one code unit after the end of the range that [getRange] read. *)
Lemma setRange_getRange (data : string) (a b : Z) :
  0 <= a <= b -> b <= Z.of_nat (String.length data) ->
  setRange_callback (range a b) (getRange_content (range a b) data) data
  = JSString.take (Z.to_nat b) data ++ JSString.drop (Z.to_nat (b + 1)) data.
Proof.
  intros Hab Hb.
  unfold setRange_callback, getRange_content, range, JSString.slice,
    JSString.relative_index; simpl.
  set (len := Z.of_nat (String.length data)) in *.
  assert (Ha : (a <? 0) = false) by (apply Z.ltb_ge; lia).
  assert (Hb0 : (b <? 0) = false) by (apply Z.ltb_ge; lia).
  assert (Hb1 : (b + 1 <? 0) = false) by (apply Z.ltb_ge; lia).
  assert (Hl : (len <? 0) = false) by (apply Z.ltb_ge; lia).
  rewrite ?Ha, ?Hb0, ?Hb1, ?Hl.
  replace (Z.min 0 len) with 0 by lia.
  replace (Z.min a len) with a by lia.
  replace (Z.min b len) with b by lia.
  replace (Z.min len len) with len by lia.
  replace (Z.to_nat (Z.max (a - 0) 0)) with (Z.to_nat a) by lia.
  replace (Z.to_nat (Z.max (b - a) 0)) with (Z.to_nat b - Z.to_nat a)%nat by lia.
  change (JSString.drop (Z.to_nat 0) data) with data.
  rewrite <- append_assoc.
  replace (Z.to_nat b) with (Z.to_nat a + (Z.to_nat b - Z.to_nat a))%nat at 2 by lia.
  rewrite <- take_plus. f_equal.
  rewrite take_all by (rewrite length_drop; lia).
  destruct (Z.eq_dec b len) as [->|Hne].
  - rewrite !drop_all; [reflexivity | lia | lia].
  - f_equal. lia.
Qed.

(** When the range ends before the end of the content, one code unit is
    lost, so the content is not what it was. *)
Lemma setRange_getRange_shorter (data : string) (a b : Z) :
  0 <= a <= b -> b < Z.of_nat (String.length data) ->
  S (String.length (setRange_callback (range a b) (getRange_content (range a b) data) data))
  = String.length data.
Proof.
  intros Hab Hb. rewrite setRange_getRange by lia.
  rewrite length_append, length_take, length_drop. lia.
Qed.

(** X1 (when the round trip is the identity): for a range inside the
    content, writing back with [setRange] what [getRange] read leaves the
    content as it was exactly when the range ends at the end of the
    content. *)
Lemma setRange_getRange_id_iff (data : string) (a b : Z) :
  0 <= a <= b -> b <= Z.of_nat (String.length data) ->
  setRange_callback (range a b) (getRange_content (range a b) data) data = data
  <-> b = Z.of_nat (String.length data).
Proof.
  intros Hab Hb. split.
  - intros Heq. destruct (Z.eq_dec b (Z.of_nat (String.length data))) as [|Hne]; [assumption|].
    pose proof (setRange_getRange_shorter data a b Hab ltac:(lia)) as Hs.
    rewrite Heq in Hs. lia.
  - intros ->. rewrite setRange_getRange by lia.
    rewrite take_all by lia.
    rewrite drop_all by lia. apply append_empty_r.
Qed.

(** C1 (NonActiveNoteIO.getRange then setRange): on the content "abc",
    reading the range from offset 0 to offset 1 gives "a", and writing "a"
    back over the same range gives "ac": the code unit at the end offset is
    dropped, so the round trip is not the identity. *)
Theorem setRange_getRange_abc :
  getRange_content (range 0 1) "abc" = "a"
  /\ setRange_callback (range 0 1) (getRange_content (range 0 1) "abc") "abc" = "ac".
Proof. split; reflexivity. Qed.

(** *** Completion of the write methods *)

(** The promise a caller of a [NonActiveNoteIO] write method gets does
    not depend on the store at all. *)
Lemma write_methods_fulfilled (v : Vault) (now : nat) (fn : string -> string) :
  let w := vault_process v now fn in
  let p := async_return_void now in
  settlement p = Fulfilled tt /\ (settled_at p < settled_at (snd w))%nat.
Proof.
  unfold vault_process, async_return_void; simpl.
  split; [reflexivity|]. destruct (write_fails v); simpl; lia.
Qed.

(** C6 (FileIO write operations): for every store, time and arguments,
    the promise returned by [NonActiveNoteIO.setRange], [setLine] and
    [insertLine] is fulfilled, and it settles strictly before the promise of
    the underlying [vault.process] call; on a store whose write fails that
    call is rejected while the caller still sees a fulfilled promise. *)
Theorem NonActiveNoteIO_writes_not_awaited
  (splitIntoLines : string -> list string)
  (insertAt : list string -> string -> nat -> list string)
  (data : string) (l now lineNumber : nat) (position : Pos) (text : string) (fails : bool) :
  let v := {| content := data; write_fails := fails; latency := l |} in
  let failing := {| content := data; write_fails := true; latency := l |} in
  let r1 := NonActiveNoteIO_setRange v now position text in
  let r2 := NonActiveNoteIO_setLine splitIntoLines v now lineNumber text in
  let r3 := NonActiveNoteIO_insertLine splitIntoLines insertAt v now lineNumber text in
  (settlement (snd r1) = Fulfilled tt /\ (settled_at (snd r1) < settled_at (snd (fst r1)))%nat)
  /\ (settlement (snd r2) = Fulfilled tt /\ (settled_at (snd r2) < settled_at (snd (fst r2)))%nat)
  /\ (settlement (snd r3) = Fulfilled tt /\ (settled_at (snd r3) < settled_at (snd (fst r3)))%nat)
  /\ NonActiveNoteIO_setRange failing now position text
     = (failing, {| settled_at := (now + S l)%nat; settlement := Rejected "write failed" |},
        {| settled_at := now; settlement := Fulfilled tt |}).
Proof.
  intros v failing r1 r2 r3.
  repeat split; try reflexivity;
    unfold r1, r2, r3, NonActiveNoteIO_setRange, NonActiveNoteIO_setLine,
      NonActiveNoteIO_insertLine; simpl;
    apply write_methods_fulfilled.
Qed.

(** By contrast [getRange], which awaits the store, settles when the
    store's promise does. *)
Lemma NonActiveNoteIO_getRange_awaits (v : Vault) (now : nat) (position : Pos) :
  settled_at (NonActiveNoteIO_getRange v now position) = settled_at (vault_cachedRead v now)
  /\ settlement (NonActiveNoteIO_getRange v now position)
     = Fulfilled (getRange_content position (content v)).
Proof. split; reflexivity. Qed.

End FileIO_facts.

(** ** Loading the settings *)

Section Settings_facts.

Variable DEFAULT_SETTINGS : gmap string JS.
Variable UNION_TYPE_MATH_CONTEXT_SETTING_KEYS : gmap string (list JS).
Variable DEFAULT_EXTRA_SETTINGS : gmap string JS.
Variable UNION_TYPE_EXTRA_SETTING_KEYS : gmap string (list JS).

Abbreviation checked := (checked_value DEFAULT_SETTINGS UNION_TYPE_MATH_CONTEXT_SETTING_KEYS).
Abbreviation keys_loop := (load_keys DEFAULT_SETTINGS UNION_TYPE_MATH_CONTEXT_SETTING_KEYS).
Abbreviation path_round := (load_path DEFAULT_SETTINGS UNION_TYPE_MATH_CONTEXT_SETTING_KEYS).
Abbreviation paths_loop := (load_paths DEFAULT_SETTINGS UNION_TYPE_MATH_CONTEXT_SETTING_KEYS).
Abbreviation load := (loadSettings DEFAULT_SETTINGS UNION_TYPE_MATH_CONTEXT_SETTING_KEYS
                    DEFAULT_EXTRA_SETTINGS UNION_TYPE_EXTRA_SETTING_KEYS).
Abbreviation merged_entry := (merged DEFAULT_SETTINGS UNION_TYPE_MATH_CONTEXT_SETTING_KEYS).
Abbreviation invariant := (table_invariant DEFAULT_SETTINGS).
Abbreviation clean_settings := (clean DEFAULT_SETTINGS UNION_TYPE_MATH_CONTEXT_SETTING_KEYS).

Lemma checked_value_typeof defaults unions key val v :
  checked_value defaults unions key val = Some v ->
  typeof v = typeof (default Undefined (defaults !! key)).
Proof.
  unfold checked_value. intros H.
  destruct val; try discriminate;
    (destruct (decide _) as [Heq|]; [|discriminate]);
    injection H as <-; exact Heq.
Qed.

Lemma checked_value_kept defaults unions key val d :
  val <> Undefined ->
  defaults !! key = Some d ->
  typeof val = typeof d ->
  (forall allowableValues, unions !! key = Some allowableValues ->
     includes allowableValues val = true) ->
  checked_value defaults unions key val = Some val.
Proof.
  intros Hv Hd Ht Hu. unfold checked_value. rewrite Hd; simpl.
  destruct (unions !! key) as [allowableValues|] eqn:E.
  - rewrite (Hu _ eq_refl). rewrite decide_True by exact Ht. now destruct val.
  - rewrite decide_True by exact Ht. now destruct val.
Qed.

Lemma checked_value_substituted defaults unions key val d allowableValues :
  val <> Undefined ->
  defaults !! key = Some d ->
  unions !! key = Some allowableValues ->
  includes allowableValues val = false ->
  checked_value defaults unions key val = Some d.
Proof.
  intros Hv Hd Hu Hi. unfold checked_value. rewrite Hd, Hu, Hi; simpl.
  rewrite decide_True by reflexivity. now destruct val.
Qed.

Lemma assign_Ok tbl path key val tbl' :
  assign tbl path key val = Ok tbl' ->
  exists props, tbl !! path = Some (JObj props)
    /\ tbl' = <[path := JObj (<[key := val]> props)]> tbl.
Proof.
  unfold assign. destruct (tbl !! path) as [[]|]; try discriminate.
  intros [= <-]. eauto.
Qed.

(** The loop over the setting keys, for one path. *)
Lemma load_keys_Ok path entry keys : forall tbl tbl' props,
  tbl !! path = Some (JObj props) ->
  keys_loop tbl path entry keys = Ok tbl' ->
  exists props', tbl' = <[path := JObj props']> tbl
    /\ forall key, props' !! key =
         match get entry key with
         | Ok val =>
             match (if decide (key ∈ keys) then checked key val else None) with
             | Some v => Some v
             | None => props !! key
             end
         | Throw _ => props !! key
         end.
Proof.
  induction keys as [|k rest IH]; intros tbl tbl' props Hp Hl; simpl in Hl.
  - injection Hl as <-. exists props. split.
    + symmetry. now apply insert_id.
    + intros key. destruct (get entry key); [|reflexivity].
      rewrite decide_False by apply not_elem_of_nil. reflexivity.
  - destruct (get entry k) as [val|] eqn:Hg; simpl in Hl; [|discriminate].
    destruct (checked k val) as [v|] eqn:Hc.
    + destruct (assign tbl path k v) as [tbl1|] eqn:Ha; simpl in Hl; [|discriminate].
      apply assign_Ok in Ha as (props0 & Hp0 & ->).
      rewrite Hp in Hp0. injection Hp0 as <-.
      destruct (IH _ _ (<[k := v]> props) (lookup_insert_eq _ _ _) Hl) as (props' & -> & Hk).
      exists props'. split; [apply insert_insert_eq|].
      intros key. rewrite Hk. destruct (decide (key = k)) as [->|Hne].
      * rewrite Hg. rewrite (decide_True (P := k ∈ k :: rest)) by apply list_elem_of_here.
        rewrite Hc. destruct (decide (k ∈ rest)); [reflexivity|].
        apply lookup_insert_eq.
      * rewrite lookup_insert_ne by congruence.
        destruct (get entry key); [|reflexivity].
        destruct (decide (key ∈ rest)) as [Hin|Hin].
        -- rewrite decide_True by now apply list_elem_of_further. reflexivity.
        -- rewrite decide_False; [reflexivity|].
           intros [->|?]%elem_of_cons; [congruence|contradiction].
    + simpl in Hl.
      destruct (IH _ _ props Hp Hl) as (props' & -> & Hk).
      exists props'. split; [reflexivity|].
      intros key. rewrite Hk. destruct (decide (key = k)) as [->|Hne].
      * rewrite Hg. rewrite (decide_True (P := k ∈ k :: rest)) by apply list_elem_of_here.
        rewrite Hc. destruct (decide (k ∈ rest)); reflexivity.
      * destruct (get entry key); [|reflexivity].
        destruct (decide (key ∈ rest)) as [Hin|Hin].
        -- rewrite decide_True by now apply list_elem_of_further. reflexivity.
        -- rewrite decide_False; [reflexivity|].
           intros [->|?]%elem_of_cons; [congruence|contradiction].
Qed.

Lemma elem_of_setting_keys (defaults : gmap string JS) key :
  key ∈ (map_to_list defaults).*1 <-> is_Some (defaults !! key).
Proof.
  rewrite list_elem_of_fmap. split.
  - intros ([k v] & -> & Hin). apply elem_of_map_to_list in Hin. simpl. eauto.
  - intros [v Hv]. exists (key, v). split; [reflexivity|]. now apply elem_of_map_to_list.
Qed.

(** One round of the loop over the paths: the entry of [path] is
    rebuilt, from nothing or, for the vault root, from what the root
    holds. *)
Lemma load_path_Ok tbl path entry tbl' rootprops :
  tbl !! VAULT_ROOT = Some (JObj rootprops) ->
  path_round tbl path entry = Ok tbl' ->
  exists props', tbl' = <[path := JObj props']> tbl
    /\ forall key, props' !! key =
         merged_entry (if decide (path ≠ VAULT_ROOT) then ∅ else rootprops) entry key.
Proof.
  intros Hroot. unfold load_path.
  assert (Hm : forall base props' : gmap string JS,
    (forall key, props' !! key =
       match get entry key with
       | Ok val =>
           match (if decide (key ∈ (map_to_list DEFAULT_SETTINGS).*1)
                  then checked key val else None) with
           | Some v => Some v
           | None => base !! key
           end
       | Throw _ => base !! key
       end) ->
    forall key, props' !! key = merged_entry base entry key).
  { intros base props' H key. rewrite H. unfold merged.
    pose proof (elem_of_setting_keys DEFAULT_SETTINGS key) as Hkeys.
    destruct (decide (key ∈ (map_to_list DEFAULT_SETTINGS).*1)) as [Hin|Hin];
      destruct (DEFAULT_SETTINGS !! key) as [d|] eqn:Hd;
      try reflexivity.
    - apply Hkeys in Hin as [? ?]. discriminate.
    - exfalso. apply Hin, Hkeys. eauto.
    - now destruct (get entry key). }
  destruct (decide (path ≠ VAULT_ROOT)) as [Hne|Heq]; intros Hl.
  - destruct (load_keys_Ok _ _ _ _ _ ∅ (lookup_insert_eq _ _ _) Hl) as (props' & -> & Hk).
    exists props'. split; [apply insert_insert_eq|]. now apply Hm.
  - apply dec_stable in Heq. subst path.
    destruct (load_keys_Ok _ _ _ _ _ rootprops Hroot Hl) as (props' & -> & Hk).
    exists props'. split; [reflexivity|]. now apply Hm.
Qed.

Lemma merged_typed base entry key val :
  merged_entry base entry key = Some val ->
  base !! key = Some val
  \/ exists d, DEFAULT_SETTINGS !! key = Some d /\ typeof val = typeof d.
Proof.
  unfold merged. destruct (DEFAULT_SETTINGS !! key) as [d|] eqn:Hd; [|now left].
  destruct (get entry key) as [v|]; [|now left].
  destruct (checked key v) as [v'|] eqn:Hc; [|now left].
  intros [= ->]. right. exists d. split; [reflexivity|].
  apply checked_value_typeof in Hc. now rewrite Hd in Hc.
Qed.

Lemma table_invariant_init : invariant {[ VAULT_ROOT := JObj DEFAULT_SETTINGS ]}.
Proof.
  split.
  - intros path v [<- <-]%lookup_singleton_Some.
    exists DEFAULT_SETTINGS. split; [reflexivity|]. eauto.
  - exists DEFAULT_SETTINGS. split; [apply lookup_singleton_eq|]. eauto.
Qed.

Lemma load_path_invariant tbl path entry tbl' :
  invariant tbl ->
  path_round tbl path entry = Ok tbl' ->
  invariant tbl'.
Proof.
  intros [Hwt (rootprops & Hroot & Hfull)] Hl.
  destruct (load_path_Ok _ _ _ _ _ Hroot Hl) as (props' & -> & Hk).
  destruct (Hwt _ _ Hroot) as (rp & [= <-] & Hrt).
  assert (Hbase : forall key val,
    (if decide (path ≠ VAULT_ROOT) then ∅ else rootprops) !! key = Some val ->
    exists d, DEFAULT_SETTINGS !! key = Some d /\ typeof val = typeof d).
  { intros key val. destruct (decide (path ≠ VAULT_ROOT)).
    - now rewrite lookup_empty.
    - apply Hrt. }
  split.
  - intros q v. destruct (decide (path = q)) as [<-|Hne].
    + rewrite lookup_insert_eq. intros [= <-]. exists props'. split; [reflexivity|].
      intros key val. rewrite Hk. intros [Hb|Hd]%merged_typed; eauto.
    + rewrite lookup_insert_ne by exact Hne. apply Hwt.
  - destruct (decide (path = VAULT_ROOT)) as [->|Hne].
    + exists props'. split; [apply lookup_insert_eq|].
      intros key d Hd. rewrite Hk.
      rewrite decide_False by (intros H; now apply H).
      destruct (merged_entry rootprops entry key) as [val|] eqn:Hm.
      * exists val. split; [reflexivity|].
        apply merged_typed in Hm as [Hb|(d' & Hd' & Ht)].
        -- destruct (Hfull _ _ Hd) as (val' & Hv' & Ht'). congruence.
        -- congruence.
      * exfalso. unfold merged in Hm. rewrite Hd in Hm.
        destruct (Hfull _ _ Hd) as (val' & Hv' & _).
        destruct (get entry key) as [v|]; [destruct (checked key v)|]; congruence.
    + exists rootprops. split; [now rewrite lookup_insert_ne|]. exact Hfull.
Qed.

Lemma load_paths_invariant entries : forall tbl tbl',
  invariant tbl ->
  paths_loop tbl entries = Ok tbl' ->
  invariant tbl'.
Proof.
  induction entries as [|[path entry] rest IH]; intros tbl tbl' Hinv Hl; simpl in Hl.
  - now injection Hl as <-.
  - destruct (path_round tbl path entry) as [tbl1|] eqn:H1; simpl in Hl; [|discriminate].
    eapply IH; [|exact Hl]. eapply load_path_invariant; eauto.
Qed.

(** The table after the whole loop, path by path, when no path is
    visited twice. *)
Lemma load_paths_Ok entries : forall tbl tbl' rootprops,
  NoDup entries.*1 ->
  tbl !! VAULT_ROOT = Some (JObj rootprops) ->
  paths_loop tbl entries = Ok tbl' ->
  (forall path, path ∉ entries.*1 -> tbl' !! path = tbl !! path)
  /\ (forall path entry, (path, entry) ∈ entries ->
        exists props', tbl' !! path = Some (JObj props')
          /\ forall key, props' !! key =
               merged_entry (if decide (path ≠ VAULT_ROOT) then ∅ else rootprops) entry key).
Proof.
  induction entries as [|[p e] rest IH]; intros tbl tbl' rootprops Hnd Hroot Hl; simpl in Hl.
  - injection Hl as <-. split; [reflexivity|]. intros path entry Hin. inversion Hin.
  - destruct (path_round tbl p e) as [tbl1|] eqn:H1; simpl in Hl; [|discriminate].
    apply NoDup_cons in Hnd as [Hp Hnd]. simpl in Hp.
    destruct (load_path_Ok _ _ _ _ _ Hroot H1) as (props1 & -> & Hk1).
    set (rootprops1 := if decide (p = VAULT_ROOT) then props1 else rootprops).
    assert (Hroot1 : <[p := JObj props1]> tbl !! VAULT_ROOT = Some (JObj rootprops1)).
    { unfold rootprops1. destruct (decide (p = VAULT_ROOT)) as [->|Hne].
      - apply lookup_insert_eq.
      - now rewrite lookup_insert_ne. }
    destruct (IH _ _ _ Hnd Hroot1 Hl) as [Hout Hin]. split.
    + intros path Hnot. simpl in Hnot. apply not_elem_of_cons in Hnot as [Hne Hnot].
      rewrite (Hout _ Hnot). now rewrite lookup_insert_ne.
    + intros path entry [[= -> ->]|Hmem]%elem_of_cons.
      * exists props1. split; [|exact Hk1].
        rewrite (Hout _ Hp). apply lookup_insert_eq.
      * destruct (Hin _ _ Hmem) as (props' & Hl' & Hk').
        exists props'. split; [exact Hl'|].
        intros key. rewrite Hk'.
        assert (Hne : path <> p).
        { intros ->. apply Hp. apply list_elem_of_fmap. now exists (p, entry). }
        destruct (decide (path ≠ VAULT_ROOT)) as [|Heq]; [reflexivity|].
        apply dec_stable in Heq. subst path. unfold rootprops1.
        now rewrite decide_False by congruence.
Qed.

(** The order in which the paths are visited plays no part. *)
Lemma load_paths_any_order entries entries' tbl tbl1 tbl2 rootprops :
  NoDup entries.*1 ->
  entries ≡ₚ entries' ->
  tbl !! VAULT_ROOT = Some (JObj rootprops) ->
  paths_loop tbl entries = Ok tbl1 ->
  paths_loop tbl entries' = Ok tbl2 ->
  tbl1 = tbl2.
Proof.
  intros Hnd Hperm Hroot H1 H2.
  assert (Hnd' : NoDup entries'.*1) by now rewrite <- Hperm.
  destruct (load_paths_Ok _ _ _ _ Hnd Hroot H1) as [Hout1 Hin1].
  destruct (load_paths_Ok _ _ _ _ Hnd' Hroot H2) as [Hout2 Hin2].
  apply map_eq. intros path.
  destruct (decide (path ∈ entries.*1)) as [Hin|Hnot].
  - apply list_elem_of_fmap in Hin as ([p entry] & -> & Hmem). simpl.
    destruct (Hin1 _ _ Hmem) as (props1 & -> & Hk1).
    rewrite Hperm in Hmem.
    destruct (Hin2 _ _ Hmem) as (props2 & -> & Hk2).
    do 2 f_equal. apply map_eq. intros key. now rewrite Hk1, Hk2.
  - rewrite (Hout1 _ Hnot). symmetry. apply Hout2. now rewrite <- Hperm.
Qed.

(** *** When the loops run to their end *)

Lemma get_not_nullish o key : ~ nullish o -> exists val, get o key = Ok val.
Proof.
  unfold nullish. destruct o; simpl; eauto; intros H; exfalso; apply H; auto.
Qed.

Lemma get_truthy o key : truthy o = true -> exists val, get o key = Ok val.
Proof. intros H. apply get_not_nullish. intros [-> | ->]; discriminate. Qed.

Lemma load_keys_total path entry keys : forall tbl props,
  ~ nullish entry ->
  tbl !! path = Some (JObj props) ->
  exists tbl', keys_loop tbl path entry keys = Ok tbl'.
Proof.
  induction keys as [|k rest IH]; intros tbl props Hn Hp; simpl; [eauto|].
  destruct (get_not_nullish entry k Hn) as (val & ->); simpl.
  destruct (checked k val) as [v|]; simpl.
  - unfold assign. rewrite Hp; simpl.
    eapply IH; [exact Hn|]. apply lookup_insert_eq.
  - eapply IH; eauto.
Qed.

Lemma load_paths_total entries : forall tbl rootprops,
  (forall path entry, (path, entry) ∈ entries -> ~ nullish entry) ->
  tbl !! VAULT_ROOT = Some (JObj rootprops) ->
  exists tbl', paths_loop tbl entries = Ok tbl'.
Proof.
  induction entries as [|[p e] rest IH]; intros tbl rootprops Hn Hroot; simpl; [eauto|].
  assert (He : ~ nullish e) by (eapply Hn; left).
  assert (H1 : exists tbl1, path_round tbl p e = Ok tbl1).
  { unfold load_path. destruct (decide (p ≠ VAULT_ROOT)) as [Hne|Heq].
    - eapply load_keys_total; [exact He|]. apply lookup_insert_eq.
    - apply dec_stable in Heq. subst p. eapply load_keys_total; eauto. }
  destruct H1 as (tbl1 & H1). rewrite H1; simpl.
  destruct (load_path_Ok _ _ _ _ _ Hroot H1) as (props1 & -> & _).
  destruct (decide (p = VAULT_ROOT)) as [->|Hne].
  - eapply IH; [|apply lookup_insert_eq]. intros; eapply Hn; right; eauto.
  - eapply IH; [|rewrite lookup_insert_ne by exact Hne; exact Hroot].
    intros; eapply Hn; right; eauto.
Qed.

Lemma load_extra_total source keys : forall extra,
  ~ nullish source ->
  exists extra', load_extra DEFAULT_EXTRA_SETTINGS UNION_TYPE_EXTRA_SETTING_KEYS
                   extra source keys = Ok extra'.
Proof.
  induction keys as [|k rest IH]; intros extra Hn; simpl; [eauto|].
  destruct (get_not_nullish source k Hn) as (val & ->); simpl. now apply IH.
Qed.

(** *** The loaded table *)

Lemma get_object_truthy data key props : get data key = Ok (JObj props) -> truthy data = true.
Proof. destruct data; simpl; try discriminate; reflexivity. Qed.

Lemma loadSettings_Ok data st :
  load data = Ok st ->
  (truthy data = false /\ settings st = {[ VAULT_ROOT := JObj DEFAULT_SETTINGS ]}
     /\ excludedFiles st = JArr [])
  \/ (truthy data = true
      /\ exists s, get data "settings" = Ok s
         /\ paths_loop {[ VAULT_ROOT := JObj DEFAULT_SETTINGS ]} (own_entries s) = Ok (settings st)
         /\ get data "excludedFiles" = Ok (excludedFiles st)).
Proof.
  unfold loadSettings. destruct (truthy data) eqn:Ht.
  - intros H. right. split; [reflexivity|].
    destruct (get data "settings") as [s|]; simpl in H; [|discriminate].
    destruct (get data "extraSettings") as [x|]; simpl in H; [|discriminate].
    destruct (get data "excludedFiles") as [e|]; simpl in H; [|discriminate].
    destruct (load_paths _ _ _ _) as [tbl|] eqn:Hl; simpl in H; [|discriminate].
    destruct (load_extra _ _ _ _ _) as [extra|]; simpl in H; [|discriminate].
    injection H as <-. simpl. exists s. auto.
  - intros [= <-]. left. simpl. auto.
Qed.

Lemma loadSettings_invariant data st :
  load data = Ok st -> invariant (settings st).
Proof.
  intros [(_ & -> & _)|(_ & s & _ & Hl & _)]%loadSettings_Ok.
  - apply table_invariant_init.
  - eapply load_paths_invariant; [apply table_invariant_init|exact Hl].
Qed.

(** X7 (when the load completes): [loadSettings] runs to its end when
    nothing is persisted, and on persisted data in which no path's entry
    and not [extraSettings] is [undefined] or [null]. *)
Lemma loadSettings_completes data :
  truthy data = false
  \/ (exists s x,
        get data "settings" = Ok s /\ get data "extraSettings" = Ok x
        /\ (forall path entry, (path, entry) ∈ own_entries s -> ~ nullish entry)
        /\ ~ nullish x) ->
  exists st, load data = Ok st.
Proof.
  unfold loadSettings. intros [Ht|(s & x & Hs & Hx & Hentries & Hnx)].
  - rewrite Ht. eauto.
  - destruct (truthy data) eqn:Ht; [|eauto].
    rewrite Hs, Hx; simpl.
    destruct (get_truthy data "excludedFiles" Ht) as (e & ->); simpl.
    destruct (load_paths_total (own_entries s) {[ VAULT_ROOT := JObj DEFAULT_SETTINGS ]}
                DEFAULT_SETTINGS Hentries (lookup_singleton_eq _ _)) as (tbl & ->); simpl.
    destruct (load_extra_total x (map_to_list DEFAULT_EXTRA_SETTINGS).*1
                DEFAULT_EXTRA_SETTINGS Hnx) as (extra & ->); simpl.
    eauto.
Qed.


(** C7 (only recognized, well-typed keys): when [loadSettings]
    completes, every entry of the loaded table is an object, every key
    stored in it is a key of [DEFAULT_SETTINGS], and the value stored under
    it has the [typeof] of the default value; so a persisted key that is not
    a setting key is stored nowhere. *)
Theorem loadSettings_recognized_keys data st path v :
  load data = Ok st ->
  settings st !! path = Some v ->
  exists props, v = JObj props
    /\ (forall key val, props !! key = Some val ->
          exists d, DEFAULT_SETTINGS !! key = Some d /\ typeof val = typeof d)
    /\ (forall key, DEFAULT_SETTINGS !! key = None -> props !! key = None).
Proof.
  intros Hload Hv. apply loadSettings_invariant in Hload as [Hwt _].
  destruct (Hwt _ _ Hv) as (props & -> & Hk).
  exists props. split; [reflexivity|]. split; [exact Hk|].
  intros key Hnone. destruct (props !! key) as [val|] eqn:E; [|reflexivity].
  destruct (Hk _ _ E) as (d & Hd & _). congruence.
Qed.

(** *** The two loaders *)

Lemma foldl_insert_lookup (l : list (string * JS)) : forall (t : gmap string JS),
  NoDup l.*1 ->
  (forall p, p ∉ l.*1 -> foldl (fun m kv => <[kv.1 := kv.2]> m) t l !! p = t !! p)
  /\ (forall p v, (p, v) ∈ l -> foldl (fun m kv => <[kv.1 := kv.2]> m) t l !! p = Some v).
Proof.
  induction l as [|[q w] l IH]; intros t Hnd; simpl.
  - split; [reflexivity|]. intros p v H. inversion H.
  - apply NoDup_cons in Hnd as [Hq Hnd]. simpl in Hq.
    destruct (IH (<[q := w]> t) Hnd) as [Hout Hin]. split.
    + intros p [Hne Hnot]%not_elem_of_cons.
      rewrite (Hout _ Hnot). now rewrite lookup_insert_ne.
    + intros p v [[= -> ->]|Hmem]%elem_of_cons.
      * rewrite (Hout _ Hq). apply lookup_insert_eq.
      * now apply Hin.
Qed.

Lemma Object_assign_object target props path :
  Object_assign target (JObj props) !! path =
  match props !! path with
  | Some v => Some v
  | None => target !! path
  end.
Proof.
  unfold Object_assign; simpl.
  destruct (foldl_insert_lookup (map_to_list props) target (NoDup_fst_map_to_list props))
    as [Hout Hin].
  destruct (props !! path) as [v|] eqn:E.
  - apply Hin. now apply elem_of_map_to_list.
  - apply Hout. rewrite elem_of_setting_keys, E. now intros [? ?].
Qed.

Lemma merged_clean base entry :
  (forall key val, entry !! key = Some val ->
     val <> Undefined
     /\ (exists d, DEFAULT_SETTINGS !! key = Some d /\ typeof val = typeof d)
     /\ (forall allowableValues,
           UNION_TYPE_MATH_CONTEXT_SETTING_KEYS !! key = Some allowableValues ->
           includes allowableValues val = true)) ->
  (forall key, entry !! key = None -> base !! key = None) ->
  forall key, merged_entry base (JObj entry) key = entry !! key.
Proof.
  intros Hc Hb key. unfold merged; simpl.
  destruct (entry !! key) as [val|] eqn:E; simpl.
  - destruct (Hc _ _ E) as (Hv & (d & Hd & Ht) & Hu). rewrite Hd.
    now rewrite (checked_value_kept _ _ _ _ _ Hv Hd Ht Hu).
  - rewrite (Hb _ E). now destruct (DEFAULT_SETTINGS !! key).
Qed.

(** C8 (the two loaders): when nothing is persisted, and on persisted
    data whose [extraSettings] can be read and whose settings are [clean_settings]
    (every entry an object with setting keys only, values of the default's
    type and allowed where the key is enumerated, a root entry setting every
    key), [MathBooster.loadSettings] completes and
    [MathPlugin.loadSettings] produces the same settings table and the same
    list of excluded files. *)
Theorem loadSettings_agree_on_clean data :
  truthy data = false
  \/ (exists smap x,
        get data "settings" = Ok (JObj smap) /\ clean_settings smap
        /\ get data "extraSettings" = Ok x /\ ~ nullish x) ->
  exists st, load data = Ok st
    /\ MathPlugin_loadSettings DEFAULT_SETTINGS data = Ok (settings st, excludedFiles st).
Proof.
  assert (Hroot : Object_assign ∅ (JObj {[ VAULT_ROOT := JObj DEFAULT_SETTINGS ]})
                  = {[ VAULT_ROOT := JObj DEFAULT_SETTINGS ]}).
  { apply map_eq. intros p. rewrite Object_assign_object.
    destruct (_ !! p); [reflexivity|apply lookup_empty]. }
  intros [Ht|(smap & x & Hs & Hclean & Hx & Hnx)].
  - unfold loadSettings, MathPlugin_loadSettings. rewrite Ht.
    eexists. split; [reflexivity|]. simpl. now rewrite Hroot.
  - pose proof (get_object_truthy _ _ _ Hs) as Ht.
    destruct (get_truthy data "excludedFiles" Ht) as (e & He).
    destruct (load_paths_total (map_to_list smap) {[ VAULT_ROOT := JObj DEFAULT_SETTINGS ]}
                DEFAULT_SETTINGS) as (tbl & Htbl).
    { intros path entry Hin%elem_of_map_to_list.
      destruct (Hclean _ _ Hin) as (en & -> & _). intros [|]; discriminate. }
    { apply lookup_singleton_eq. }
    destruct (load_extra_total x (map_to_list DEFAULT_EXTRA_SETTINGS).*1
                DEFAULT_EXTRA_SETTINGS Hnx) as (extra & Hextra).
    exists {| settings := tbl; extraSettings := extra; excludedFiles := e |}.
    unfold loadSettings, MathPlugin_loadSettings. rewrite Ht, Hs, Hx, He; simpl.
    rewrite Htbl; simpl. rewrite Hextra; simpl. split; [reflexivity|].
    do 2 f_equal. rewrite Hroot. apply map_eq. intros p.
    rewrite Object_assign_object.
    destruct (load_paths_Ok _ _ _ DEFAULT_SETTINGS (NoDup_fst_map_to_list smap)
                (lookup_singleton_eq _ _) Htbl) as [Hout Hin].
    destruct (smap !! p) as [v|] eqn:E.
    + destruct (Hclean _ _ E) as (entry & -> & Hkeys & Hfull).
      destruct (Hin p (JObj entry)) as (props & -> & Hk).
      { now apply elem_of_map_to_list. }
      do 2 f_equal. apply map_eq. intros key. rewrite Hk. symmetry.
      apply merged_clean; [exact Hkeys|].
      intros k Hnone. destruct (decide (p ≠ VAULT_ROOT)) as [|Heq]; [apply lookup_empty|].
      apply dec_stable in Heq.
      destruct (DEFAULT_SETTINGS !! k) as [d|] eqn:Hd; [|reflexivity].
      destruct (Hfull Heq k) as [val Hval]; [eauto|congruence].
    + symmetry. apply Hout. rewrite elem_of_setting_keys, E. now intros [? ?].
Qed.

End Settings_facts.

(** ** Vault events *)

Module Events_facts.
Import Events.

Lemma indexOf_spec (array : list string) (x : string) :
  (indexOf array x = -1 /\ (x ∉ array))
  \/ (exists before after : list string,
        array = (before ++ x :: after)%list /\ (x ∉ before)
        /\ indexOf array x = Z.of_nat (length before)).
Proof.
  induction array as [|y rest IH]; simpl.
  - left. split; [reflexivity|]. apply not_elem_of_nil.
  - destruct (decide (y = x)) as [->|Hne].
    + right. exists [], rest. repeat split. apply not_elem_of_nil.
    + destruct IH as [[-> Hnot]|(before & after & -> & Hnot & ->)].
      * left. split; [reflexivity|]. apply not_elem_of_cons. split; [congruence|exact Hnot].
      * right. exists (y :: before), after.
        replace (Z.of_nat (length before) <? 0) with false by (symmetry; apply Z.ltb_ge; lia).
        repeat split.
        -- apply not_elem_of_cons. split; [congruence|exact Hnot].
        -- simpl length. lia.
Qed.

Lemma splice1_found (before after : list string) (x : string) :
  splice1 (before ++ x :: after)%list (Z.of_nat (length before)) = (before ++ after)%list.
Proof. unfold splice1. rewrite Nat2Z.id. apply delete_middle. Qed.

Lemma occurrences_app x (l1 l2 : list string) :
  occurrences x (l1 ++ l2)%list = (occurrences x l1 + occurrences x l2)%nat.
Proof. induction l1 as [|y l1 IH]; simpl; [reflexivity|]. rewrite IH. lia. Qed.

Lemma occurrences_elem_of x (l : list string) : x ∈ l <-> (1 <= occurrences x l)%nat.
Proof.
  induction l as [|y l IH]; simpl.
  - split; [intros H; inversion H | lia].
  - rewrite elem_of_cons, IH. destruct (decide (y = x)) as [->|Hne].
    + split; [lia | now left].
    + split; [intros [Heq|H]; [congruence|lia] | intros H; right; lia].
Qed.

(** The list of excluded files after [oldPath] was looked up and, when
    found, its first occurrence removed. *)
Lemma removed_first (array : list string) (x : string) :
  let array' := if indexOf array x >=? 0 then splice1 array (indexOf array x) else array in
  ((x ∈ array') <-> (2 <= occurrences x array)%nat)
  /\ (forall y, y <> x -> ((y ∈ array') <-> (y ∈ array)))
  /\ ((indexOf array x >=? 0) = true <-> (x ∈ array)).
Proof.
  destruct (indexOf_spec array x) as [[Hi Hnot]|(before & after & -> & Hnot & Hi)];
    rewrite Hi; simpl.
  - split; [|split].
    + split; [contradiction|]. intros H. apply occurrences_elem_of. lia.
    + reflexivity.
    + split; [discriminate|contradiction].
  - replace (Z.of_nat (length before) >=? 0) with true by (symmetry; apply Z.geb_le; lia).
    rewrite splice1_found. split; [|split].
    + rewrite occurrences_app; simpl. rewrite decide_True by reflexivity.
      assert (H0 : occurrences x before = 0%nat).
      { destruct (occurrences x before) eqn:E; [reflexivity|].
        exfalso. apply Hnot, occurrences_elem_of. lia. }
      rewrite H0, elem_of_app, (occurrences_elem_of x after).
      split; [intros [?|?]; [contradiction|lia]|].
      intros H. right. lia.
    + intros y Hne. rewrite !elem_of_app, elem_of_cons. split; [tauto|].
      intros [?|[?|?]]; [tauto|congruence|tauto].
    + split; [|reflexivity]. intros _. rewrite elem_of_app, elem_of_cons. auto.
Qed.


(** C5 (delete): after the delete of [file_path] the table has no
    entry for it; it is still in the list of excluded files exactly when it
    occurred there more than once (the first occurrence is the one
    removed); the entry and the exclusion of every other path are
    unchanged. *)
Theorem on_delete_effect (st : State) (file_path : string) :
  settings (on_delete st file_path) !! file_path = None
  /\ (file_path ∈ excludedFiles (on_delete st file_path) <->
        (2 <= occurrences file_path (excludedFiles st))%nat)
  /\ (forall path, path <> file_path ->
        settings (on_delete st file_path) !! path = settings st !! path
        /\ (path ∈ excludedFiles (on_delete st file_path) <-> path ∈ excludedFiles st)).
Proof.
  unfold on_delete; simpl.
  destruct (removed_first (excludedFiles st) file_path) as (Hold & Hothers & _).
  simpl in Hold, Hothers.
  split; [|split].
  - destruct (decide (is_Some (settings st !! file_path))) as [|Hn].
    + apply lookup_delete_eq.
    + now apply eq_None_not_Some.
  - exact Hold.
  - intros path Hne. split.
    + destruct (decide (is_Some (settings st !! file_path))); [|reflexivity].
      now rewrite lookup_delete_ne by congruence.
    + now apply Hothers.
Qed.

(** The entry of the vault root is out of reach of an event that does
    not carry the root's path. *)
Lemma handle_root (st : State) (ev : event) :
  avoids_root ev -> settings (handle st ev) !! VAULT_ROOT = settings st !! VAULT_ROOT.
Proof.
  destruct ev as [file_path oldPath|file_path]; simpl.
  - intros [Hn Ho]. rewrite lookup_delete_ne by congruence.
    now rewrite lookup_insert_ne by congruence.
  - intros Hn. destruct (decide _); [|reflexivity].
    now rewrite lookup_delete_ne by congruence.
Qed.

(** A rename away from the root's path leaves the root without an
    entry, whatever the new path is. *)
Lemma on_rename_root_moved (st : State) (file_path : string) :
  settings (on_rename st file_path VAULT_ROOT) !! VAULT_ROOT = None
  /\ (file_path <> VAULT_ROOT ->
      settings (on_rename st file_path VAULT_ROOT) !! file_path
      = Some (read (settings st) VAULT_ROOT)).
Proof.
  unfold on_rename; simpl. split.
  - apply lookup_delete_eq.
  - intros Hne. rewrite lookup_delete_ne by congruence. apply lookup_insert_eq.
Qed.

Lemma handle_all_root (events : list event) : forall st,
  Forall avoids_root events ->
  settings (foldl handle st events) !! VAULT_ROOT = settings st !! VAULT_ROOT.
Proof.
  induction events as [|ev events IH]; intros st Hall; simpl; [reflexivity|].
  apply Forall_cons in Hall as [Hev Hall].
  rewrite (IH _ Hall). now apply handle_root.
Qed.

End Events_facts.

(** ** The entry of the vault root *)

Section Root_entry.

Variable DEFAULT_SETTINGS : gmap string JS.
Variable UNION_TYPE_MATH_CONTEXT_SETTING_KEYS : gmap string (list JS).
Variable DEFAULT_EXTRA_SETTINGS : gmap string JS.
Variable UNION_TYPE_EXTRA_SETTING_KEYS : gmap string (list JS).

(** C3 (the root sets every key): when [loadSettings] completes, on
    any persisted data or none, the loaded table has an entry for the vault
    root that sets every key of [DEFAULT_SETTINGS], to a value of the
    default's type; and after any sequence of rename and delete events none
    of which carries the path of the vault root, as its file path or, for
    a rename, as its old path, the table still has that very entry. *)
Theorem root_entry_sets_every_key data st (excluded : list string) (events : list Events.event) :
  loadSettings DEFAULT_SETTINGS UNION_TYPE_MATH_CONTEXT_SETTING_KEYS
    DEFAULT_EXTRA_SETTINGS UNION_TYPE_EXTRA_SETTING_KEYS data = Ok st ->
  Forall Events.avoids_root events ->
  exists props,
    settings st !! VAULT_ROOT = Some (JObj props)
    /\ (forall key d, DEFAULT_SETTINGS !! key = Some d ->
          exists val, props !! key = Some val /\ typeof val = typeof d)
    /\ Events.settings
         (foldl Events.handle
            {| Events.settings := settings st; Events.excludedFiles := excluded |} events)
       !! VAULT_ROOT = Some (JObj props).
Proof.
  intros Hload Hev.
  apply loadSettings_invariant in Hload as [_ (props & Hroot & Hfull)].
  exists props. split; [exact Hroot|]. split; [exact Hfull|].
  rewrite Events_facts.handle_all_root by exact Hev. exact Hroot.
Qed.

End Root_entry.

(** ** File utilities *)

Module FileTree_facts.
Import FileTree.

Section Tree.

Context {TAbstractFile : Type} `{EqDecision TAbstractFile}.
Variable parent : TAbstractFile -> option TAbstractFile.
Variable isFolder : TAbstractFile -> bool.
Variable isRoot : TAbstractFile -> bool.

(** Once [ancestor] is [null] no round of the loop returns or changes
    it. *)
Lemma ancestor_loop_null (fuel : nat) (file2 : TAbstractFile) :
  ancestor_loop parent isRoot fuel None file2 = None.
Proof.
  induction fuel as [|fuel IH]; simpl; [reflexivity | exact IH].
Qed.

(** A file without a parent, compared with a different file that is
    not the root folder: no amount of fuel lets the call return. *)
Lemma isEqualToOrChildOf_no_parent (file1 file2 : TAbstractFile) (fuel : nat) :
  parent file1 = None ->
  file1 <> file2 ->
  isFolder file2 && isRoot file2 = false ->
  isEqualToOrChildOf parent isFolder isRoot fuel file1 file2 = None.
Proof.
  intros Hp Hne Hr. unfold isEqualToOrChildOf.
  rewrite decide_False by exact Hne. rewrite Hr, Hp. apply ancestor_loop_null.
Qed.

Lemma proper_ancestor_parent (a f : TAbstractFile) :
  proper_ancestor parent a f <->
  parent f = Some a \/ exists p, parent f = Some p /\ proper_ancestor parent a p.
Proof.
  split.
  - intros H'. destruct H' as [f Hf|f p Hf Hp]; eauto.
  - intros [Hf|(p & Hf & Hp)].
    + now apply ancestor_parent.
    + eapply ancestor_step; eauto.
Qed.

(** When the chain of parents meets a root folder, the loop returns,
    and it returns [true] exactly when it met [file2] on the way. *)
Lemma ancestor_loop_rooted (file2 : TAbstractFile) (n : nat) :
  (forall a, isRoot a = true -> parent a = None) ->
  forall (ancestor : option TAbstractFile) (fuel : nat),
  root_after parent isRoot n ancestor ->
  (n < fuel)%nat ->
  exists b, ancestor_loop parent isRoot fuel ancestor file2 = Some b
    /\ (b = true <->
        ancestor = Some file2
        \/ exists a, ancestor = Some a /\ proper_ancestor parent file2 a).
Proof.
  intros Hwf. induction n as [|n IH]; intros [a|] fuel Hr Hlt; simpl in Hr; try contradiction;
    (destruct fuel as [|fuel]; [lia|]); simpl;
    (destruct (decide (Some a = Some file2)) as [Heq|Hne];
     [exists true; split; [reflexivity|]; split; auto|]).
  - rewrite Hr. exists false. split; [reflexivity|].
    split; [discriminate|]. intros [Heq|(a' & [= <-] & Hp)]; [contradiction|].
    apply proper_ancestor_parent in Hp. rewrite (Hwf _ Hr) in Hp.
    destruct Hp as [?|(? & ? & _)]; discriminate.
  - destruct Hr as [Hnr Hr]. rewrite Hnr.
    destruct (IH (parent a) fuel Hr ltac:(lia)) as (b & -> & Hb).
    exists b. split; [reflexivity|]. rewrite Hb. split.
    + intros Hp. right. exists a. split; [reflexivity|]. now apply proper_ancestor_parent.
    + intros [Heq|(a' & [= <-] & Hp)]; [contradiction|]. now apply proper_ancestor_parent.
Qed.

(** X22 (a chain that meets a root folder): for a file whose chain of
    parents meets a root folder after [n] steps, root folders having no
    parent, the call returns within [n + 1] rounds of the loop, and it
    returns [true] exactly when [file2] is [file1], the root folder or a
    proper ancestor of [file1]. *)
Lemma isEqualToOrChildOf_rooted (file1 file2 : TAbstractFile) (n fuel : nat) :
  (forall a, isRoot a = true -> parent a = None) ->
  root_after parent isRoot n (parent file1) ->
  (n < fuel)%nat ->
  exists b, isEqualToOrChildOf parent isFolder isRoot fuel file1 file2 = Some b
    /\ (b = true <->
        file1 = file2 \/ isFolder file2 && isRoot file2 = true
        \/ proper_ancestor parent file2 file1).
Proof.
  intros Hwf Hr Hlt. unfold isEqualToOrChildOf.
  destruct (decide (file1 = file2)) as [Heq|Hne].
  { exists true. split; [reflexivity|]. split; auto. }
  destruct (isFolder file2 && isRoot file2) eqn:E.
  { exists true. split; [reflexivity|]. split; auto. }
  destruct (ancestor_loop_rooted file2 n Hwf _ _ Hr Hlt) as (b & -> & Hb).
  exists b. split; [reflexivity|]. rewrite Hb, (proper_ancestor_parent file2 file1).
  split.
  - intros [Hp|(a & Hp & Ha)]; right; right; eauto.
  - intros [?|[?|[Hp|(a & Hp & Ha)]]]; try contradiction; try discriminate; eauto.
Qed.

End Tree.

(** C9 (isEqualToOrChildOf): in the vault made of a root folder and one
    note in it, the call [isEqualToOrChildOf(root, note)] never returns:
    whatever the fuel, the loop is still running, with [ancestor] equal to
    [null]. *)
Theorem isEqualToOrChildOf_root_note (fuel : nat) :
  isEqualToOrChildOf file_parent file_isFolder file_isRoot fuel root_folder note = None.
Proof. apply isEqualToOrChildOf_no_parent; [reflexivity|discriminate|reflexivity]. Qed.

(** The other way round the call returns, with the intended answer. *)
Lemma isEqualToOrChildOf_note_root :
  isEqualToOrChildOf file_parent file_isFolder file_isRoot 1 note root_folder = Some true.
Proof. reflexivity. Qed.

End FileTree_facts.

(** ** Block identifiers *)

Module BlockID_facts.
Import BlockID.

Lemma floor16_range (r : Q) :
  (0 <= r)%Q -> (r < 1)%Q -> 0 <= Qfloor (r * 16) < 16.
Proof.
  intros H0 H1. split.
  - change 0 with (Qfloor 0). apply Qfloor_resp_le.
    apply Qmult_le_0_compat; [exact H0|discriminate].
  - assert (Hlt : (inject_Z (Qfloor (r * 16)) < inject_Z 16)%Q).
    { eapply Qle_lt_trans; [apply Qfloor_le|].
      change (inject_Z 16) with (1 * 16)%Q.
      apply Qmult_lt_compat_r; [reflexivity|exact H1]. }
    now rewrite <- Zlt_Qlt in Hlt.
Qed.

(** The sixteen digits, checked one by one. *)
Lemma toString16_digits :
  forallb (fun k => match toString16 (Z.of_nat k) with
                    | String c EmptyString => is_lower_hex c
                    | _ => false
                    end) (seq 0 16) = true.
Proof. reflexivity. Qed.

Lemma toString16_digit (n : Z) :
  0 <= n < 16 ->
  exists c, toString16 n = String c EmptyString /\ is_lower_hex c = true.
Proof.
  intros Hn. pose proof toString16_digits as Hall.
  rewrite forallb_forall in Hall. specialize (Hall (Z.to_nat n)).
  rewrite Z2Nat.id in Hall by lia.
  destruct (toString16 n) as [|c [|]]; try (discriminate Hall; apply in_seq; lia).
  exists c. split; [reflexivity|]. apply Hall, in_seq. lia.
Qed.

Lemma random_digit_hex (r : Q) :
  (0 <= r)%Q -> (r < 1)%Q ->
  exists c, random_digit r = String c EmptyString /\ is_lower_hex c = true.
Proof. intros H0 H1. apply toString16_digit, floor16_range; assumption. Qed.

Lemma random_digits_hex (random : nat -> Q) (length : nat) : forall next,
  (forall n, (0 <= random n)%Q /\ (random n < 1)%Q) ->
  String.length (random_digits random next length) = length
  /\ all_lower_hex (random_digits random next length) = true.
Proof.
  induction length as [|length IH]; intros next Hr; simpl; [split; reflexivity|].
  destruct (Hr next) as [H0 H1].
  destruct (random_digit_hex _ H0 H1) as (c & -> & Hc).
  destruct (IH (S next) Hr) as [Hlen Hall].
  change (String c EmptyString ++ ?s) with (String c s). simpl.
  rewrite Hlen, Hc, Hall. split; reflexivity.
Qed.

(** What the loop returns is a candidate it drew and found free. *)
Lemma generate_loop_Some (fuel : nat) (random : nat -> Q) (cache : CachedMetadata)
    (length : nat) : forall next id,
  generate_loop fuel random next cache length = Some id ->
  taken cache id = false /\ exists next', id = random_digits random next' length.
Proof.
  induction fuel as [|fuel IH]; intros next id; simpl; [discriminate|].
  destruct (taken cache (random_digits random next length)) eqn:E.
  - apply IH.
  - intros [= <-]. eauto.
Qed.

(** The loop returns at the first free candidate. *)
Lemma generate_loop_free (fuel : nat) (random : nat -> Q) (cache : CachedMetadata)
    (next length : nat) :
  taken cache (random_digits random next length) = false ->
  generate_loop (S fuel) random next cache length = Some (random_digits random next length).
Proof. intros H. simpl. now rewrite H. Qed.

(** More generally it returns the first free candidate, whatever the
    number of taken candidates drawn before it, given that much fuel. *)
Lemma generate_loop_returns (random : nat -> Q) (cache : CachedMetadata) (length : nat)
    (k : nat) : forall next fuel,
  (forall j, (j < k)%nat ->
     taken cache (random_digits random (next + j * length) length) = true) ->
  taken cache (random_digits random (next + k * length) length) = false ->
  (k < fuel)%nat ->
  generate_loop fuel random next cache length
  = Some (random_digits random (next + k * length) length).
Proof.
  induction k as [|k IH]; intros next fuel Hbefore Hfree Hfuel;
    (destruct fuel as [|fuel]; [lia|]); cbn [generate_loop].
  - replace (next + 0 * length)%nat with next in * by lia. now rewrite Hfree.
  - pose proof (Hbefore 0%nat ltac:(lia)) as H0.
    replace (next + 0 * length)%nat with next in H0 by lia. rewrite H0.
    replace (next + S k * length)%nat with (next + length + k * length)%nat in * by lia.
    apply IH; [|exact Hfree|lia].
    intros j Hj. specialize (Hbefore (S j) ltac:(lia)).
    now replace (next + S j * length)%nat with (next + length + j * length)%nat in Hbefore by lia.
Qed.

(** C10 (generateBlockID): with draws of [Math.random()] in the range
    from 0 (included) to 1 (excluded), every string that
    [generateBlockID(cache, length)] returns has exactly [length] characters
    (6 when the argument is omitted), all of them lowercase hexadecimal
    digits, and is not a key of [cache.blocks] when [cache.blocks]
    exists. *)
Theorem generateBlockID_returned (fuel : nat) (random : nat -> Q) (cache : CachedMetadata)
    (length : option nat) (id : string) :
  (forall n, (0 <= random n)%Q /\ (random n < 1)%Q) ->
  generateBlockID fuel random cache length = Some id ->
  String.length id = default 6%nat length
  /\ all_lower_hex id = true
  /\ (forall b, blocks cache = Some b -> b !! id = None).
Proof.
  intros Hr Hg. unfold generateBlockID in Hg.
  apply generate_loop_Some in Hg as (Hfree & next' & ->).
  destruct (random_digits_hex random (default 6%nat length) next' Hr) as [Hlen Hall].
  split; [exact Hlen|]. split; [exact Hall|].
  intros b Hb. unfold taken in Hfree. rewrite Hb in Hfree.
  apply bool_decide_eq_false in Hfree. now apply eq_None_not_Some.
Qed.

End BlockID_facts.

(** * Runs on concrete inputs *)

Module Runs.
Import Examples.

(** ** Loading *)

Lemma load_nothing : Sample.loadSettings JNull = Ok default_state.
Proof. reflexivity. Qed.

Lemma load_dirty : Sample.loadSettings (Sample.persisted dirty_settings) = Ok dirty_state.
Proof. vm_compute. reflexivity. Qed.

(** A path whose persisted entry is [null], or persisted data without
    [extraSettings], make [loadSettings] throw. *)
Lemma load_null_entry :
  Sample.loadSettings (Sample.persisted {[ "a.md" := JNull ]}) = Throw TypeError.
Proof. vm_compute. reflexivity. Qed.

Lemma load_without_extraSettings :
  Sample.loadSettings (JObj {[ "settings" := JObj ∅ ]}) = Throw TypeError.
Proof. vm_compute. reflexivity. Qed.


(** C3 as amended, at the sample constants: with nothing persisted,
    followed by a rename and a delete; and with the settings of
    [dirty_settings], followed by a delete. *)
Lemma root_entry_sets_every_key_witness :
  (exists props,
     settings default_state !! VAULT_ROOT = Some (JObj props)
     /\ (forall key d, Sample.DEFAULT_SETTINGS !! key = Some d ->
           exists val, props !! key = Some val /\ typeof val = typeof d)
     /\ Events.settings
          (foldl Events.handle
             {| Events.settings := settings default_state; Events.excludedFiles := ["a.md"] |}
             [Events.Rename "b.md" "a.md"; Events.Delete "b.md"])
        !! VAULT_ROOT = Some (JObj props))
  /\ (exists props,
        settings dirty_state !! VAULT_ROOT = Some (JObj props)
        /\ (forall key d, Sample.DEFAULT_SETTINGS !! key = Some d ->
              exists val, props !! key = Some val /\ typeof val = typeof d)
        /\ Events.settings
             (foldl Events.handle
                {| Events.settings := settings dirty_state; Events.excludedFiles := [] |}
                [Events.Delete "a.md"])
           !! VAULT_ROOT = Some (JObj props)).
Proof.
  split.
  - apply (root_entry_sets_every_key
             Sample.DEFAULT_SETTINGS Sample.UNION_TYPE_MATH_CONTEXT_SETTING_KEYS
             Sample.DEFAULT_EXTRA_SETTINGS Sample.UNION_TYPE_EXTRA_SETTING_KEYS JNull).
    + reflexivity.
    + repeat constructor; discriminate.
  - apply (root_entry_sets_every_key
             Sample.DEFAULT_SETTINGS Sample.UNION_TYPE_MATH_CONTEXT_SETTING_KEYS
             Sample.DEFAULT_EXTRA_SETTINGS Sample.UNION_TYPE_EXTRA_SETTING_KEYS
             (Sample.persisted dirty_settings)).
    + vm_compute. reflexivity.
    + repeat constructor; discriminate.
Defined.

(** C3 does not hold as stated. A rename whose file path is not the
    root's while its old path is: the entry that the load made for the
    vault root is moved to the new path, and the root is left without
    one. *)
Lemma on_rename_from_root :
  "a.md" <> VAULT_ROOT
  /\ Sample.loadSettings JNull = Ok default_state
  /\ settings default_state !! VAULT_ROOT = Some (JObj Sample.DEFAULT_SETTINGS)
  /\ Events.settings
       (Events.handle
          {| Events.settings := settings default_state; Events.excludedFiles := [] |}
          (Events.Rename "a.md" VAULT_ROOT))
     !! VAULT_ROOT = None.
Proof.
  split; [discriminate|]. split; [reflexivity|]. split; vm_compute; reflexivity.
Qed.

(** C7, at the sample constants: of the three keys persisted for
    [a.md] only the numbering style is kept. *)
Lemma loadSettings_recognized_keys_witness :
  exists props, JObj {[ "numberStyle" := JStr "arabic" ]} = JObj props
    /\ (forall key val, props !! key = Some val ->
          exists d, Sample.DEFAULT_SETTINGS !! key = Some d /\ typeof val = typeof d)
    /\ (forall key, Sample.DEFAULT_SETTINGS !! key = None -> props !! key = None).
Proof.
  apply (loadSettings_recognized_keys
           Sample.DEFAULT_SETTINGS Sample.UNION_TYPE_MATH_CONTEXT_SETTING_KEYS
           Sample.DEFAULT_EXTRA_SETTINGS Sample.UNION_TYPE_EXTRA_SETTING_KEYS
           (Sample.persisted dirty_settings) dirty_state "a.md").
  - vm_compute. reflexivity.
  - vm_compute. reflexivity.
Defined.

(** C8 does not hold as stated. On the settings with an unknown key,
    a value of the wrong type and an invalid numbering style, the two
    loaders build different tables: the newer one keeps, for [a.md], only
    the numbering style, set to its default; the older one keeps the
    persisted entry as it is. *)
Lemma loadSettings_differ :
  exists st tbl,
    Sample.loadSettings (Sample.persisted dirty_settings) = Ok st
    /\ Sample.MathPlugin_loadSettings (Sample.persisted dirty_settings) = Ok (tbl, JArr [])
    /\ settings st !! "a.md" = Some (JObj {[ "numberStyle" := JStr "arabic" ]})
    /\ tbl !! "a.md" = dirty_settings !! "a.md"
    /\ tbl <> settings st.
Proof.
  exists dirty_state. eexists. split; [exact load_dirty|].
  split; [vm_compute; reflexivity|].
  split; [vm_compute; reflexivity|].
  split; [vm_compute; reflexivity|].
  intros H. apply (f_equal (fun t : gmap string JS => t !! "a.md")) in H.
  vm_compute in H. discriminate.
Qed.

(** A partial override for the vault root also tells them apart: the
    newer loader completes it with the defaults, the older one lets it
    replace them. *)
Lemma loadSettings_differ_partial_root :
  exists st tbl,
    Sample.loadSettings
      (Sample.persisted {[ VAULT_ROOT := JObj {[ "lineByLine" := JBool false ]} ]}) = Ok st
    /\ Sample.MathPlugin_loadSettings
         (Sample.persisted {[ VAULT_ROOT := JObj {[ "lineByLine" := JBool false ]} ]})
       = Ok (tbl, JArr [])
    /\ settings st !! VAULT_ROOT
       = Some (JObj (<["lineByLine" := JBool false]> Sample.DEFAULT_SETTINGS))
    /\ tbl !! VAULT_ROOT = Some (JObj {[ "lineByLine" := JBool false ]}).
Proof.
  eexists. eexists. split; [vm_compute; reflexivity|].
  split; [vm_compute; reflexivity|].
  split; vm_compute; reflexivity.
Qed.

Lemma clean_settings_clean :
  clean Sample.DEFAULT_SETTINGS Sample.UNION_TYPE_MATH_CONTEXT_SETTING_KEYS clean_settings.
Proof.
  intros path v H. unfold clean_settings in H.
  apply lookup_singleton_Some in H as [<- <-].
  exists {[ "lineByLine" := JBool false ]}. split; [reflexivity|]. split.
  - intros key val [<- <-]%lookup_singleton_Some. split; [discriminate|]. split.
    + exists (JBool true). split; vm_compute; reflexivity.
    + intros allowableValues H. vm_compute in H. discriminate.
  - discriminate.
Qed.

(** C8 as amended, at the sample constants: with nothing persisted,
    and on [clean_settings]. *)
Lemma loadSettings_agree_on_clean_witness :
  (exists st, Sample.loadSettings JNull = Ok st
     /\ Sample.MathPlugin_loadSettings JNull = Ok (settings st, excludedFiles st))
  /\ (exists st, Sample.loadSettings (Sample.persisted clean_settings) = Ok st
        /\ Sample.MathPlugin_loadSettings (Sample.persisted clean_settings)
           = Ok (settings st, excludedFiles st)).
Proof.
  split.
  - apply (loadSettings_agree_on_clean
             Sample.DEFAULT_SETTINGS Sample.UNION_TYPE_MATH_CONTEXT_SETTING_KEYS
             Sample.DEFAULT_EXTRA_SETTINGS Sample.UNION_TYPE_EXTRA_SETTING_KEYS JNull).
    left. reflexivity.
  - apply (loadSettings_agree_on_clean
             Sample.DEFAULT_SETTINGS Sample.UNION_TYPE_MATH_CONTEXT_SETTING_KEYS
             Sample.DEFAULT_EXTRA_SETTINGS Sample.UNION_TYPE_EXTRA_SETTING_KEYS
             (Sample.persisted clean_settings)).
    right. exists clean_settings, (JObj ∅).
    split; [vm_compute; reflexivity|].
    split; [exact clean_settings_clean|].
    split; [vm_compute; reflexivity|].
    intros [H|H]; discriminate.
Defined.

(** ** Events *)



(** C5 does not hold as stated. A delete of a path that the list of
    excluded files holds twice: one occurrence stays. *)
Lemma on_delete_duplicate :
  Events.excludedFiles (Events.on_delete twice_state "a.md") = ["a.md"]
  /\ "a.md" ∈ Events.excludedFiles (Events.on_delete twice_state "a.md").
Proof. split; [reflexivity|]. vm_compute. apply list_elem_of_here. Qed.

(** Such a list comes out of the rename handler itself: renaming
    [a.md] to [b.md] while both are excluded leaves [b.md] twice, and a
    later delete of [b.md] leaves it once. *)
Lemma rename_then_delete :
  let st := {| Events.settings := ∅; Events.excludedFiles := ["a.md"; "b.md"] |} in
  Events.excludedFiles (Events.on_rename st "b.md" "a.md") = ["b.md"; "b.md"]
  /\ Events.excludedFiles (Events.on_delete (Events.on_rename st "b.md" "a.md") "b.md")
     = ["b.md"].
Proof. split; reflexivity. Qed.

(** ** Block identifiers *)

Lemma cycle16_range (n : nat) : (0 <= BlockID.cycle16 n)%Q /\ (BlockID.cycle16 n < 1)%Q.
Proof.
  unfold BlockID.cycle16, Qle, Qlt; simpl.
  pose proof (Nat.mod_upper_bound n 16 ltac:(discriminate)). lia.
Qed.

(** The first candidate, [012345], is taken; the second is returned. *)
Lemma generateBlockID_busy :
  BlockID.generateBlockID 2 BlockID.cycle16 busy_cache None = Some "6789ab".
Proof. vm_compute. reflexivity. Qed.

(** C10, on that run. *)
Lemma generateBlockID_returned_witness :
  String.length "6789ab" = 6%nat
  /\ BlockID.all_lower_hex "6789ab" = true
  /\ (forall b, BlockID.blocks busy_cache = Some b -> b !! "6789ab" = None).
Proof.
  apply (BlockID_facts.generateBlockID_returned 2 BlockID.cycle16 busy_cache None "6789ab").
  - exact cycle16_range.
  - vm_compute. reflexivity.
Defined.

End Runs.

(** * Further properties *)

(** ** Note IO: ranges *)

Module FileIO_ranges.
Import FileIO.

Lemma length_take_le (n : nat) (s : string) :
  (n <= String.length s)%nat -> String.length (JSString.take n s) = n.
Proof. intros H. rewrite FileIO_facts.length_take. lia. Qed.

Lemma drop_append_length (p q : string) : JSString.drop (String.length p) (p ++ q) = q.
Proof.
  induction p as [|c p IH]; simpl.
  - now destruct q.
  - exact IH.
Qed.

Lemma take_append_length (p q : string) : JSString.take (String.length p) (p ++ q) = p.
Proof.
  induction p as [|c p IH]; simpl.
  - now destruct q.
  - now rewrite IH.
Qed.

Lemma drop_plus (n m : nat) (s : string) :
  JSString.drop (n + m) s = JSString.drop m (JSString.drop n s).
Proof.
  revert s; induction n as [|n IH]; intros s; simpl; [reflexivity|].
  destruct s as [|c s]; [now destruct m|apply IH].
Qed.

(** [slice] on offsets that are not negative: both are clamped to the
    length, and nothing is read when the second is not past the first. *)
Lemma slice_nonneg (s : string) (a b : Z) :
  0 <= a -> 0 <= b ->
  JSString.slice s a b
  = JSString.take (Z.to_nat (Z.min b (Z.of_nat (String.length s)))
                   - Z.to_nat (Z.min a (Z.of_nat (String.length s))))
      (JSString.drop (Z.to_nat (Z.min a (Z.of_nat (String.length s)))) s).
Proof.
  intros Ha Hb. unfold JSString.slice, JSString.relative_index.
  replace (a <? 0) with false by (symmetry; apply Z.ltb_ge; lia).
  replace (b <? 0) with false by (symmetry; apply Z.ltb_ge; lia).
  f_equal. lia.
Qed.

(** What [setRange] writes: the content before [start.offset], then
    [text], then the content after [end.offset], the code unit at
    [end.offset] itself being left out. *)
Lemma setRange_callback_parts (data text : string) (a b : Z) :
  0 <= a -> -1 <= b ->
  setRange_callback (range a b) text data
  = JSString.take (Z.to_nat a) data ++ text ++ JSString.drop (Z.to_nat (b + 1)) data.
Proof.
  intros Ha Hb. unfold setRange_callback, range; simpl.
  set (len := Z.of_nat (String.length data)).
  rewrite (slice_nonneg data 0 a) by lia.
  rewrite (slice_nonneg data (b + 1) len) by lia. fold len.
  replace (Z.to_nat (Z.min 0 len)) with 0%nat by lia.
  change (JSString.drop 0 data) with data.
  replace (Z.to_nat (Z.min a len) - 0)%nat with (Z.to_nat (Z.min a len)) by lia.
  f_equal; [|f_equal].
  - destruct (Z.le_gt_cases a len).
    + f_equal. lia.
    + rewrite !FileIO_facts.take_all; [reflexivity| |]; unfold len in *; lia.
  - rewrite FileIO_facts.take_all by (rewrite FileIO_facts.length_drop; unfold len; lia).
    destruct (Z.le_gt_cases (b + 1) len).
    + f_equal. lia.
    + rewrite !FileIO_facts.drop_all; [reflexivity| |]; unfold len in *; lia.
Qed.

(** X2 (setRange replaces an inclusive range): for a range with
    [0 <= start.offset <= end.offset < length], [setRange] keeps the
    content before [start.offset] and after [end.offset], puts [text] in
    between, and so removes [end.offset - start.offset + 1] code units. *)
Theorem setRange_replaces_inclusive (data text : string) (a b : Z) :
  0 <= a <= b -> b < Z.of_nat (String.length data) ->
  setRange_callback (range a b) text data
  = JSString.take (Z.to_nat a) data ++ text ++ JSString.drop (Z.to_nat (b + 1)) data
  /\ Z.of_nat (String.length (setRange_callback (range a b) text data))
     = Z.of_nat (String.length data) - (b - a + 1) + Z.of_nat (String.length text).
Proof.
  intros Hab Hb. rewrite setRange_callback_parts by lia. split; [reflexivity|].
  rewrite !FileIO_facts.length_append, FileIO_facts.length_take, FileIO_facts.length_drop.
  lia.
Qed.

(** X3 (an insertion): a range whose [end.offset] is one less than its
    [start.offset] makes [setRange] insert [text] at [start.offset] and
    remove nothing. *)
Theorem setRange_inserts (data text : string) (a : Z) :
  0 <= a <= Z.of_nat (String.length data) ->
  setRange_callback (range a (a - 1)) text data
  = JSString.take (Z.to_nat a) data ++ text ++ JSString.drop (Z.to_nat a) data
  /\ String.length (setRange_callback (range a (a - 1)) text data)
     = (String.length data + String.length text)%nat.
Proof.
  intros Ha. rewrite setRange_callback_parts by lia.
  replace (a - 1 + 1) with a by lia. split; [reflexivity|].
  rewrite !FileIO_facts.length_append, FileIO_facts.length_take, FileIO_facts.length_drop.
  lia.
Qed.

(** X4 (write, then read back): on the content that the callback of
    [setRange] makes, with [start.offset] inside the old content, what
    [getRange] reads from [start.offset] over as many code units as [text]
    has is [text]. *)
Theorem getRange_setRange (data text : string) (a b : Z) :
  0 <= a <= Z.of_nat (String.length data) -> -1 <= b ->
  getRange_content (range a (a + Z.of_nat (String.length text)))
    (setRange_callback (range a b) text data) = text.
Proof.
  intros Ha Hb. rewrite setRange_callback_parts by lia.
  set (p := JSString.take (Z.to_nat a) data).
  set (q := JSString.drop (Z.to_nat (b + 1)) data).
  assert (Hp : String.length p = Z.to_nat a) by (apply length_take_le; lia).
  unfold getRange_content, range; simpl.
  rewrite slice_nonneg by lia.
  rewrite !FileIO_facts.length_append, Hp.
  replace (Z.to_nat (Z.min a _)) with (String.length p) by lia.
  replace (Z.to_nat (Z.min (a + Z.of_nat (String.length text)) _) - String.length p)%nat
    with (String.length text) by lia.
  rewrite drop_append_length. apply take_append_length.
Qed.

(** X5 (adjacent ranges): inside the content, what [getRange] reads
    over two ranges that touch is what it reads over their union. *)
Theorem getRange_adjacent (content : string) (a b c : Z) :
  0 <= a <= b -> b <= c -> c <= Z.of_nat (String.length content) ->
  getRange_content (range a c) content
  = getRange_content (range a b) content ++ getRange_content (range b c) content.
Proof.
  intros Hab Hbc Hc. unfold getRange_content, range; simpl.
  rewrite !slice_nonneg by lia.
  replace (Z.min a _) with a by lia. replace (Z.min b _) with b by lia.
  replace (Z.min c _) with c by lia.
  replace (Z.to_nat c - Z.to_nat a)%nat
    with ((Z.to_nat b - Z.to_nat a) + (Z.to_nat c - Z.to_nat b))%nat by lia.
  rewrite FileIO_facts.take_plus. f_equal. f_equal.
  rewrite <- drop_plus. f_equal. lia.
Qed.

(** X6 (length of a read): for offsets that are not negative,
    [getRange] reads as many code units as lie between the two offsets
    once both are clamped to the length of the content, and none when the
    end is not past the start. *)
Theorem getRange_length (content : string) (a b : Z) :
  0 <= a -> 0 <= b ->
  Z.of_nat (String.length (getRange_content (range a b) content))
  = Z.max 0 (Z.min b (Z.of_nat (String.length content))
             - Z.min a (Z.of_nat (String.length content))).
Proof.
  intros Ha Hb. unfold getRange_content, range; simpl.
  rewrite slice_nonneg by lia.
  rewrite FileIO_facts.length_take, FileIO_facts.length_drop. lia.
Qed.

End FileIO_ranges.

(** ** Loading the settings: entries, extra settings, saved data *)

Section Settings_more.

Variable DEFAULT_SETTINGS : gmap string JS.
Variable UNION_TYPE_MATH_CONTEXT_SETTING_KEYS : gmap string (list JS).
Variable DEFAULT_EXTRA_SETTINGS : gmap string JS.
Variable UNION_TYPE_EXTRA_SETTING_KEYS : gmap string (list JS).

Abbreviation load := (loadSettings DEFAULT_SETTINGS UNION_TYPE_MATH_CONTEXT_SETTING_KEYS
                    DEFAULT_EXTRA_SETTINGS UNION_TYPE_EXTRA_SETTING_KEYS).
Abbreviation checked := (checked_value DEFAULT_SETTINGS UNION_TYPE_MATH_CONTEXT_SETTING_KEYS).
Abbreviation checked_extra :=
  (checked_value DEFAULT_EXTRA_SETTINGS UNION_TYPE_EXTRA_SETTING_KEYS).
Abbreviation extra_loop := (load_extra DEFAULT_EXTRA_SETTINGS UNION_TYPE_EXTRA_SETTING_KEYS).
Abbreviation merged_entry := (merged DEFAULT_SETTINGS UNION_TYPE_MATH_CONTEXT_SETTING_KEYS).

(** The loop over the keys of the extra settings. *)
Lemma load_extra_Ok source keys : forall extra extra',
  extra_loop extra source keys = Ok extra' ->
  forall key, extra' !! key =
    match get source key with
    | Ok val =>
        match (if decide (key ∈ keys) then checked_extra key val else None) with
        | Some v => Some v
        | None => extra !! key
        end
    | Throw _ => extra !! key
    end.
Proof.
  induction keys as [|k rest IH]; intros extra extra' Hl key; simpl in Hl.
  - injection Hl as <-. destruct (get source key); [|reflexivity].
    destruct (decide (key ∈ [])) as [Hin|]; [inversion Hin|reflexivity].
  - destruct (get source k) as [val|] eqn:Hg; simpl in Hl; [|discriminate].
    rewrite (IH _ _ Hl key). destruct (decide (key = k)) as [->|Hne].
    + rewrite Hg. rewrite (decide_True (P := k ∈ k :: rest)) by apply list_elem_of_here.
      destruct (checked_extra k val) as [v|] eqn:Hc.
      * destruct (decide (k ∈ rest)); [reflexivity|apply lookup_insert_eq].
      * destruct (decide (k ∈ rest)); reflexivity.
    + assert (Hk : (match checked_extra k val with
                    | Some v' => <[k := v']> extra
                    | None => extra
                    end) !! key = extra !! key).
      { destruct (checked_extra k val); [|reflexivity].
        now rewrite lookup_insert_ne by congruence. }
      rewrite Hk. destruct (get source key); [|reflexivity].
      destruct (decide (key ∈ rest)) as [Hin|Hin].
      * rewrite decide_True by now apply list_elem_of_further. reflexivity.
      * rewrite decide_False; [reflexivity|].
        intros [->|?]%elem_of_cons; [congruence|contradiction].
Qed.

(** What a completed [loadSettings] went through. *)
Lemma loadSettings_Ok_truthy data st :
  load data = Ok st ->
  truthy data = true ->
  exists s x,
    get data "settings" = Ok s /\ get data "extraSettings" = Ok x
    /\ load_paths DEFAULT_SETTINGS UNION_TYPE_MATH_CONTEXT_SETTING_KEYS
         {[ VAULT_ROOT := JObj DEFAULT_SETTINGS ]} (own_entries s) = Ok (settings st)
    /\ extra_loop DEFAULT_EXTRA_SETTINGS x (map_to_list DEFAULT_EXTRA_SETTINGS).*1
       = Ok (extraSettings st)
    /\ get data "excludedFiles" = Ok (excludedFiles st).
Proof.
  unfold loadSettings. intros H Ht. rewrite Ht in H.
  destruct (get data "settings") as [s|]; simpl in H; [|discriminate].
  destruct (get data "extraSettings") as [x|]; simpl in H; [|discriminate].
  destruct (get data "excludedFiles") as [e|]; simpl in H; [|discriminate].
  destruct (load_paths _ _ _ _) as [tbl|] eqn:Hl; simpl in H; [|discriminate].
  destruct (load_extra _ _ _ _ _) as [extra|] eqn:Hx; simpl in H; [|discriminate].
  injection H as <-. simpl. exists s, x. auto.
Qed.

Lemma loadSettings_falsy data st :
  load data = Ok st ->
  truthy data = false ->
  st = {| settings := {[ VAULT_ROOT := JObj DEFAULT_SETTINGS ]};
          extraSettings := DEFAULT_EXTRA_SETTINGS;
          excludedFiles := JArr [] |}.
Proof. unfold loadSettings. intros H Ht. rewrite Ht in H. now injection H. Qed.

(** The entry that a completed load leaves for a persisted path. *)
Lemma loadSettings_entry data st smap path entry :
  load data = Ok st ->
  get data "settings" = Ok (JObj smap) ->
  smap !! path = Some entry ->
  exists props, settings st !! path = Some (JObj props)
    /\ forall key, props !! key =
         merged_entry (if decide (path ≠ VAULT_ROOT) then ∅ else DEFAULT_SETTINGS) entry key.
Proof.
  intros Hload Hs Hp.
  destruct (loadSettings_Ok_truthy _ _ Hload (get_object_truthy _ _ _ Hs))
    as (s & x & Hs' & _ & Hl & _).
  rewrite Hs in Hs'. injection Hs' as <-. simpl in Hl.
  destruct (load_paths_Ok _ _ _ _ _ DEFAULT_SETTINGS (NoDup_fst_map_to_list smap)
              (lookup_singleton_eq _ _) Hl) as [_ Hin].
  apply Hin. now apply elem_of_map_to_list.
Qed.

(** X8 (a valid override is kept): when [loadSettings] completes, a
    persisted value that is not [undefined], has the type of the default
    and, for an enumerated key, is an allowed value, is in the loaded table
    under the same path and key. *)
Theorem loadSettings_keeps_valid data st smap path entry key val d :
  load data = Ok st ->
  get data "settings" = Ok (JObj smap) ->
  smap !! path = Some (JObj entry) ->
  entry !! key = Some val ->
  val <> Undefined ->
  DEFAULT_SETTINGS !! key = Some d ->
  typeof val = typeof d ->
  (forall allowableValues,
     UNION_TYPE_MATH_CONTEXT_SETTING_KEYS !! key = Some allowableValues ->
     includes allowableValues val = true) ->
  exists props, settings st !! path = Some (JObj props) /\ props !! key = Some val.
Proof.
  intros Hload Hs Hp He Hv Hd Ht Hu.
  destruct (loadSettings_entry _ _ _ _ _ Hload Hs Hp) as (props & Hprops & Hk).
  exists props. split; [exact Hprops|].
  rewrite Hk. unfold merged. rewrite Hd; simpl. rewrite He; simpl.
  now rewrite (checked_value_kept _ _ _ _ _ Hv Hd Ht Hu).
Qed.

(** X9 (a key that is not persisted): when [loadSettings] completes,
    a setting key that the persisted entry of a path does not hold is
    absent from the loaded entry of that path, except for the vault root,
    whose entry keeps the default value. *)
Theorem loadSettings_missing_key data st smap path entry key :
  load data = Ok st ->
  get data "settings" = Ok (JObj smap) ->
  smap !! path = Some (JObj entry) ->
  entry !! key = None ->
  exists props, settings st !! path = Some (JObj props)
    /\ props !! key = if decide (path = VAULT_ROOT) then DEFAULT_SETTINGS !! key else None.
Proof.
  intros Hload Hs Hp He.
  destruct (loadSettings_entry _ _ _ _ _ Hload Hs Hp) as (props & Hprops & Hk).
  exists props. split; [exact Hprops|].
  rewrite Hk. unfold merged; simpl. rewrite He; simpl.
  destruct (decide (path = VAULT_ROOT)) as [Heq|Hne].
  - rewrite decide_False by (intros H; now apply H).
    now destruct (DEFAULT_SETTINGS !! key).
  - rewrite decide_True by exact Hne. rewrite lookup_empty.
    now destruct (DEFAULT_SETTINGS !! key).
Qed.

(** X10 (a value of the wrong type): when [loadSettings] completes, a
    persisted value under a key that is not enumerated whose [typeof] is
    not that of the default is not loaded: the key is absent from the
    entry of that path, and keeps its default in the entry of the vault
    root. *)
Theorem loadSettings_drops_wrong_type data st smap path entry key val d :
  load data = Ok st ->
  get data "settings" = Ok (JObj smap) ->
  smap !! path = Some (JObj entry) ->
  entry !! key = Some val ->
  DEFAULT_SETTINGS !! key = Some d ->
  UNION_TYPE_MATH_CONTEXT_SETTING_KEYS !! key = None ->
  typeof val <> typeof d ->
  exists props, settings st !! path = Some (JObj props)
    /\ props !! key = if decide (path = VAULT_ROOT) then Some d else None.
Proof.
  intros Hload Hs Hp He Hd Hu Ht.
  destruct (loadSettings_entry _ _ _ _ _ Hload Hs Hp) as (props & Hprops & Hk).
  exists props. split; [exact Hprops|].
  rewrite Hk. unfold merged; simpl. rewrite Hd, He; simpl.
  assert (Hc : checked key val = None).
  { unfold checked_value. rewrite Hu, Hd; simpl.
    rewrite decide_False by exact Ht. now destruct val. }
  rewrite Hc. destruct (decide (path = VAULT_ROOT)) as [Heq|Hne].
  - rewrite decide_False by (intros H; now apply H). exact Hd.
  - rewrite decide_True by exact Hne. apply lookup_empty.
Qed.

(** X11 (an entry that is no object): when [loadSettings] completes, a
    path whose persisted entry is a string, a number, a boolean or an
    array gets an empty entry (the vault root: the defaults). *)
Theorem loadSettings_non_object_entry data st smap path entry :
  load data = Ok st ->
  get data "settings" = Ok (JObj smap) ->
  smap !! path = Some entry ->
  match entry with
  | JBool _ | JNum _ | JStr _ | JArr _ => True
  | Undefined | JNull | JObj _ => False
  end ->
  settings st !! path
  = Some (JObj (if decide (path = VAULT_ROOT) then DEFAULT_SETTINGS else ∅)).
Proof.
  intros Hload Hs Hp Hshape.
  destruct (loadSettings_entry _ _ _ _ _ Hload Hs Hp) as (props & -> & Hk).
  do 2 f_equal. apply map_eq. intros key. rewrite Hk. unfold merged.
  assert (Hg : get entry key = Ok Undefined) by (destruct entry; simpl; tauto).
  rewrite Hg; simpl.
  destruct (decide (path = VAULT_ROOT)) as [Heq|Hne].
  - rewrite decide_False by (intros H; now apply H).
    now destruct (DEFAULT_SETTINGS !! key).
  - rewrite decide_True by exact Hne. now destruct (DEFAULT_SETTINGS !! key).
Qed.


(** *** What makes the load throw *)

Lemma setting_keys_nonempty (defaults : gmap string JS) :
  defaults <> ∅ -> exists k rest, (map_to_list defaults).*1 = k :: rest.
Proof.
  intros Hne. destruct (map_to_list defaults) as [|[k v] l] eqn:E.
  - now apply map_to_list_empty_iff in E.
  - simpl. eauto.
Qed.

Lemma load_paths_Ok_not_nullish entries : forall tbl tbl',
  DEFAULT_SETTINGS <> ∅ ->
  load_paths DEFAULT_SETTINGS UNION_TYPE_MATH_CONTEXT_SETTING_KEYS tbl entries = Ok tbl' ->
  forall path entry, (path, entry) ∈ entries -> ~ nullish entry.
Proof.
  induction entries as [|[p e] rest IH]; intros tbl tbl' Hne Hl path entry Hin.
  - inversion Hin.
  - simpl in Hl.
    destruct (load_path _ _ tbl p e) as [tbl1|] eqn:H1; simpl in Hl; [|discriminate].
    apply elem_of_cons in Hin as [[= -> ->]|Hin]; [|eapply IH; eauto].
    unfold load_path in H1.
    destruct (setting_keys_nonempty _ Hne) as (k & keys & Hk). rewrite Hk in H1.
    simpl in H1. intros [-> | ->]; simpl in H1; discriminate.
Qed.

Lemma result_not_Ok {A : Type} (r : result A) :
  (forall a, r <> Ok a) -> r = Throw TypeError.
Proof. destruct r as [a|[]]; [intros H; now destruct (H a)|reflexivity]. Qed.

(** X13 (an entry that is null): when [DEFAULT_SETTINGS] has a key,
    persisted settings in which some path's entry is [null] make
    [loadSettings] throw a [TypeError]. *)
Theorem loadSettings_null_entry data smap path entry :
  DEFAULT_SETTINGS <> ∅ ->
  get data "settings" = Ok (JObj smap) ->
  smap !! path = Some entry ->
  nullish entry ->
  load data = Throw TypeError.
Proof.
  intros Hne Hs Hp Hnull. apply result_not_Ok. intros st Hload.
  destruct (loadSettings_Ok_truthy _ _ Hload (get_object_truthy _ _ _ Hs))
    as (s & x & Hs' & _ & Hl & _).
  rewrite Hs in Hs'. injection Hs' as <-. simpl in Hl.
  eapply (load_paths_Ok_not_nullish _ _ _ Hne Hl path entry); [|exact Hnull].
  now apply elem_of_map_to_list.
Qed.

(** X14 (data saved by the older plugin): when
    [DEFAULT_EXTRA_SETTINGS] has a key, [MathBooster.loadSettings] throws a
    [TypeError] on every piece of data that [MathPlugin.saveSettings]
    saves, which holds no [extraSettings]. *)
Theorem loadSettings_rejects_older_data (st : gmap string JS * JS) :
  DEFAULT_EXTRA_SETTINGS <> ∅ ->
  load (MathPlugin_saveSettings st) = Throw TypeError.
Proof.
  intros Hne. apply result_not_Ok. intros st' Hload.
  destruct (loadSettings_Ok_truthy _ _ Hload eq_refl) as (s & x & _ & Hx & _ & Hl & _).
  unfold MathPlugin_saveSettings in Hx; simpl in Hx.
  rewrite lookup_insert_ne, lookup_insert_ne, lookup_empty in Hx by discriminate.
  injection Hx as <-.
  destruct (setting_keys_nonempty _ Hne) as (k & keys & Hk). rewrite Hk in Hl.
  discriminate.
Qed.

(** *** The extra settings *)

(** X15 (the extra settings are complete): when [loadSettings]
    completes, the extra settings hold exactly the keys of
    [DEFAULT_EXTRA_SETTINGS], each with a value of the default's type. *)
Theorem loadSettings_extraSettings_complete data st key :
  load data = Ok st ->
  (DEFAULT_EXTRA_SETTINGS !! key = None -> extraSettings st !! key = None)
  /\ (forall d, DEFAULT_EXTRA_SETTINGS !! key = Some d ->
        exists v, extraSettings st !! key = Some v /\ typeof v = typeof d).
Proof.
  intros Hload. destruct (truthy data) eqn:Ht.
  - destruct (loadSettings_Ok_truthy _ _ Hload Ht) as (s & x & _ & _ & _ & Hl & _).
    pose proof (load_extra_Ok _ _ _ _ Hl key) as Hk.
    pose proof (elem_of_setting_keys DEFAULT_EXTRA_SETTINGS key) as Hkeys.
    split.
    + intros Hnone. rewrite Hk, Hnone.
      destruct (get x key); [|reflexivity].
      destruct (decide _) as [Hin|]; [|reflexivity].
      apply Hkeys in Hin as [? ?]. congruence.
    + intros d Hd. rewrite Hk, Hd.
      destruct (get x key) as [val|]; [|eauto].
      destruct (decide _) as [Hin|]; [|eauto].
      destruct (checked_extra key val) as [v|] eqn:Hc; [|eauto].
      exists v. split; [reflexivity|].
      apply checked_value_typeof in Hc. now rewrite Hd in Hc.
  - rewrite (loadSettings_falsy _ _ Hload Ht); simpl. split; [auto|eauto].
Qed.

(** X16 (a valid extra setting is kept, an invalid one replaced): when
    [loadSettings] completes on data whose [extraSettings] is an object,
    a persisted value of the default's type that is allowed where the key
    is enumerated is the loaded one; a persisted value of an enumerated key
    that is not allowed gives way to the default. *)
Theorem loadSettings_extraSettings_value data st x key val d :
  load data = Ok st ->
  get data "extraSettings" = Ok (JObj x) ->
  x !! key = Some val ->
  val <> Undefined ->
  DEFAULT_EXTRA_SETTINGS !! key = Some d ->
  (typeof val = typeof d ->
   (forall allowableValues,
      UNION_TYPE_EXTRA_SETTING_KEYS !! key = Some allowableValues ->
      includes allowableValues val = true) ->
   extraSettings st !! key = Some val)
  /\ (forall allowableValues,
        UNION_TYPE_EXTRA_SETTING_KEYS !! key = Some allowableValues ->
        includes allowableValues val = false ->
        extraSettings st !! key = Some d).
Proof.
  intros Hload Hx Hval Hv Hd.
  destruct (loadSettings_Ok_truthy _ _ Hload (get_object_truthy _ _ _ Hx))
    as (s & x' & _ & Hx' & _ & Hl & _).
  rewrite Hx in Hx'. injection Hx' as <-.
  pose proof (load_extra_Ok _ _ _ _ Hl key) as Hk. simpl in Hk.
  rewrite Hval in Hk; simpl in Hk.
  rewrite decide_True in Hk by (apply elem_of_setting_keys; rewrite Hd; eauto).
  split.
  - intros Ht Hu. now rewrite Hk, (checked_value_kept _ _ _ _ _ Hv Hd Ht Hu).
  - intros allowableValues Hu Hi.
    now rewrite Hk, (checked_value_substituted _ _ _ _ _ _ Hv Hd Hu Hi).
Qed.

(** *** Saving, then loading again *)

Lemma checked_value_valid defaults unions key val v d :
  valid_defaults defaults unions ->
  defaults !! key = Some d ->
  checked_value defaults unions key val = Some v ->
  v <> Undefined
  /\ typeof v = typeof d
  /\ forall allowableValues, unions !! key = Some allowableValues ->
       includes allowableValues v = true.
Proof.
  intros Hvalid Hd Hc. destruct (Hvalid _ _ Hd) as [Hdu Hda].
  pose proof (checked_value_typeof _ _ _ _ _ Hc) as Ht. rewrite Hd in Ht; simpl in Ht.
  split; [|split; [exact Ht|]].
  - intros ->. destruct d; try discriminate. now apply Hdu.
  - unfold checked_value in Hc. rewrite Hd in Hc; simpl in Hc.
    intros allowableValues Hu. rewrite Hu in Hc.
    destruct (includes allowableValues val) eqn:Hi.
    + assert (v = val) as ->; [|exact Hi].
      destruct val; try discriminate; destruct (decide _); congruence.
    + assert (v = d) as ->; [|now apply Hda].
      destruct val; try discriminate; destruct (decide _); congruence.
Qed.

Lemma clean_init :
  valid_defaults DEFAULT_SETTINGS UNION_TYPE_MATH_CONTEXT_SETTING_KEYS ->
  clean DEFAULT_SETTINGS UNION_TYPE_MATH_CONTEXT_SETTING_KEYS
    {[ VAULT_ROOT := JObj DEFAULT_SETTINGS ]}.
Proof.
  intros Hvalid path v [<- <-]%lookup_singleton_Some.
  exists DEFAULT_SETTINGS. split; [reflexivity|]. split; [|auto].
  intros key val Hk. destruct (Hvalid _ _ Hk) as [Hu Ha]. eauto.
Qed.

Lemma load_path_clean tbl path entry tbl' rootprops :
  valid_defaults DEFAULT_SETTINGS UNION_TYPE_MATH_CONTEXT_SETTING_KEYS ->
  clean DEFAULT_SETTINGS UNION_TYPE_MATH_CONTEXT_SETTING_KEYS tbl ->
  tbl !! VAULT_ROOT = Some (JObj rootprops) ->
  load_path DEFAULT_SETTINGS UNION_TYPE_MATH_CONTEXT_SETTING_KEYS tbl path entry = Ok tbl' ->
  clean DEFAULT_SETTINGS UNION_TYPE_MATH_CONTEXT_SETTING_KEYS tbl'
  /\ exists rootprops', tbl' !! VAULT_ROOT = Some (JObj rootprops').
Proof.
  intros Hvalid Hclean Hroot Hl.
  destruct (load_path_Ok _ _ _ _ _ _ _ Hroot Hl) as (props' & -> & Hk).
  destruct (Hclean _ _ Hroot) as (rp & [= <-] & Hrv & Hrf).
  split.
  - intros q v. destruct (decide (path = q)) as [<-|Hne].
    + rewrite lookup_insert_eq. intros [= <-]. exists props'. split; [reflexivity|]. split.
      * intros key val. rewrite Hk.
        assert (Hbase :
          (if decide (path ≠ VAULT_ROOT) then ∅ else rootprops) !! key = Some val ->
          val <> Undefined
          /\ (exists d, DEFAULT_SETTINGS !! key = Some d /\ typeof val = typeof d)
          /\ (forall allowableValues,
                UNION_TYPE_MATH_CONTEXT_SETTING_KEYS !! key = Some allowableValues ->
                includes allowableValues val = true)).
        { destruct (decide (path ≠ VAULT_ROOT)); [now rewrite lookup_empty|apply Hrv]. }
        unfold merged.
        destruct (DEFAULT_SETTINGS !! key) as [d|] eqn:Hd; [|exact Hbase].
        destruct (get entry key) as [v0|]; [|exact Hbase].
        destruct (checked key v0) as [v1|] eqn:Hc; [|exact Hbase].
        intros [= <-].
        destruct (checked_value_valid _ _ _ _ _ _ Hvalid Hd Hc) as (? & ? & ?).
        eauto.
      * intros Heq key Hsome. rewrite Hk. rewrite decide_False by (intros H; now apply H).
        unfold merged. destruct Hsome as [d Hd]. rewrite Hd.
        destruct (get entry key) as [v0|]; [destruct (checked key v0); [eauto|]|];
          apply (Hrf eq_refl); eauto.
    + rewrite lookup_insert_ne by exact Hne. apply Hclean.
  - destruct (decide (path = VAULT_ROOT)) as [->|Hne].
    + exists props'. apply lookup_insert_eq.
    + exists rootprops. now rewrite lookup_insert_ne.
Qed.

Lemma load_paths_clean entries : forall tbl tbl' rootprops,
  valid_defaults DEFAULT_SETTINGS UNION_TYPE_MATH_CONTEXT_SETTING_KEYS ->
  clean DEFAULT_SETTINGS UNION_TYPE_MATH_CONTEXT_SETTING_KEYS tbl ->
  tbl !! VAULT_ROOT = Some (JObj rootprops) ->
  load_paths DEFAULT_SETTINGS UNION_TYPE_MATH_CONTEXT_SETTING_KEYS tbl entries = Ok tbl' ->
  clean DEFAULT_SETTINGS UNION_TYPE_MATH_CONTEXT_SETTING_KEYS tbl'.
Proof.
  induction entries as [|[p e] rest IH]; intros tbl tbl' rootprops Hvalid Hclean Hroot Hl;
    simpl in Hl.
  - now injection Hl as <-.
  - destruct (load_path _ _ tbl p e) as [tbl1|] eqn:H1; simpl in Hl; [|discriminate].
    destruct (load_path_clean _ _ _ _ _ Hvalid Hclean Hroot H1) as [Hclean1 (rp1 & Hroot1)].
    eapply IH; eauto.
Qed.

(** Under valid defaults the loaded table is [clean]. *)
Lemma loadSettings_clean data st :
  valid_defaults DEFAULT_SETTINGS UNION_TYPE_MATH_CONTEXT_SETTING_KEYS ->
  load data = Ok st ->
  clean DEFAULT_SETTINGS UNION_TYPE_MATH_CONTEXT_SETTING_KEYS (settings st).
Proof.
  intros Hvalid Hload. destruct (truthy data) eqn:Ht.
  - destruct (loadSettings_Ok_truthy _ _ Hload Ht) as (s & x & _ & _ & Hl & _).
    eapply load_paths_clean; [exact Hvalid|now apply clean_init| |exact Hl].
    apply lookup_singleton_eq.
  - rewrite (loadSettings_falsy _ _ Hload Ht). now apply clean_init.
Qed.

(** Loading a [clean] table that has a root entry gives that table. *)
Lemma load_paths_of_clean (smap : gmap string JS) :
  clean DEFAULT_SETTINGS UNION_TYPE_MATH_CONTEXT_SETTING_KEYS smap ->
  is_Some (smap !! VAULT_ROOT) ->
  load_paths DEFAULT_SETTINGS UNION_TYPE_MATH_CONTEXT_SETTING_KEYS
    {[ VAULT_ROOT := JObj DEFAULT_SETTINGS ]} (map_to_list smap) = Ok smap.
Proof.
  intros Hclean Hroot.
  destruct (load_paths_total DEFAULT_SETTINGS UNION_TYPE_MATH_CONTEXT_SETTING_KEYS
              (map_to_list smap) {[ VAULT_ROOT := JObj DEFAULT_SETTINGS ]}
              DEFAULT_SETTINGS) as (tbl & Htbl).
  { intros path entry Hin%elem_of_map_to_list.
    destruct (Hclean _ _ Hin) as (en & -> & _). intros [|]; discriminate. }
  { apply lookup_singleton_eq. }
  rewrite Htbl. f_equal. apply map_eq. intros p.
  destruct (load_paths_Ok _ _ _ _ _ DEFAULT_SETTINGS (NoDup_fst_map_to_list smap)
              (lookup_singleton_eq _ _) Htbl) as [Hout Hin].
  destruct (smap !! p) as [v|] eqn:E.
  - destruct (Hclean _ _ E) as (entry & -> & Hkeys & Hfull).
    destruct (Hin p (JObj entry)) as (props & -> & Hk).
    { now apply elem_of_map_to_list. }
    do 2 f_equal. apply map_eq. intros key. rewrite Hk.
    apply merged_clean; [exact Hkeys|].
    intros k Hnone. destruct (decide (p ≠ VAULT_ROOT)) as [|Heq]; [apply lookup_empty|].
    apply dec_stable in Heq.
    destruct (DEFAULT_SETTINGS !! k) as [d|] eqn:Hd; [|reflexivity].
    destruct (Hfull Heq k) as [val Hval]; [eauto|congruence].
  - rewrite Hout by (rewrite elem_of_setting_keys, E; now intros [? ?]).
    apply lookup_singleton_ne. intros <-. rewrite E in Hroot. now destruct Hroot.
Qed.

(** Under valid defaults the loaded extra settings load again as they
    are. *)
Lemma load_extra_again data st :
  valid_defaults DEFAULT_EXTRA_SETTINGS UNION_TYPE_EXTRA_SETTING_KEYS ->
  load data = Ok st ->
  extra_loop DEFAULT_EXTRA_SETTINGS (JObj (extraSettings st))
    (map_to_list DEFAULT_EXTRA_SETTINGS).*1 = Ok (extraSettings st).
Proof.
  intros Hvalid Hload.
  assert (Hvals : forall key, extraSettings st !! key =
            match DEFAULT_EXTRA_SETTINGS !! key with
            | Some d => extraSettings st !! key
            | None => None
            end
            /\ forall d, DEFAULT_EXTRA_SETTINGS !! key = Some d ->
                 exists v, extraSettings st !! key = Some v
                   /\ checked_extra key v = Some v).
  { intros key. destruct (truthy data) eqn:Ht.
    - destruct (loadSettings_Ok_truthy _ _ Hload Ht) as (s & x & _ & _ & _ & Hl & _).
      pose proof (load_extra_Ok _ _ _ _ Hl key) as Hk.
      pose proof (elem_of_setting_keys DEFAULT_EXTRA_SETTINGS key) as Hkeys.
      destruct (DEFAULT_EXTRA_SETTINGS !! key) as [d|] eqn:Hd.
      + split; [reflexivity|]. intros d' [= <-].
        destruct (Hvalid _ _ Hd) as [Hdu Hda].
        assert (Hdef : checked_extra key d = Some d)
          by (apply (checked_value_kept _ _ _ _ d); auto).
        rewrite Hk. destruct (get x key) as [val|]; [|eauto].
        destruct (decide _) as [Hin|]; [|eauto].
        destruct (checked_extra key val) as [v|] eqn:Hc; [|eauto].
        exists v. split; [reflexivity|].
        destruct (checked_value_valid _ _ _ _ _ _ Hvalid Hd Hc) as (Hv & Ht' & Ha).
        apply (checked_value_kept _ _ _ _ d); auto.
      + split; [|discriminate]. rewrite Hk.
        destruct (get x key); [|reflexivity].
        destruct (decide _) as [Hin|]; [|reflexivity].
        apply Hkeys in Hin as [? ?]. discriminate.
    - rewrite (loadSettings_falsy _ _ Hload Ht); simpl.
      destruct (DEFAULT_EXTRA_SETTINGS !! key) as [d|] eqn:Hd.
      + split; [reflexivity|]. intros d' [= <-]. exists d. split; [reflexivity|].
        destruct (Hvalid _ _ Hd) as [Hdu Hda].
        apply (checked_value_kept _ _ _ _ d); auto.
      + split; [reflexivity|discriminate]. }
  destruct (load_extra_total DEFAULT_EXTRA_SETTINGS UNION_TYPE_EXTRA_SETTING_KEYS
              (JObj (extraSettings st)) (map_to_list DEFAULT_EXTRA_SETTINGS).*1
              DEFAULT_EXTRA_SETTINGS) as (extra & Hextra).
  { intros [|]; discriminate. }
  rewrite Hextra. f_equal. apply map_eq. intros key.
  rewrite (load_extra_Ok _ _ _ _ Hextra key); simpl.
  destruct (Hvals key) as [Hdom Hval].
  pose proof (elem_of_setting_keys DEFAULT_EXTRA_SETTINGS key) as Hkeys.
  destruct (DEFAULT_EXTRA_SETTINGS !! key) as [d|] eqn:Hd.
  - destruct (Hval d eq_refl) as (v & Hv & Hc). rewrite Hv; simpl.
    rewrite decide_True by (apply Hkeys; eauto). now rewrite Hc.
  - rewrite decide_False by (rewrite Hkeys; now intros [? ?]).
    now rewrite Hdom.
Qed.

(** X17 (saving and loading again): under valid defaults, when
    [loadSettings] completes with some state, loading what [saveSettings]
    saves of that state completes with the same settings table, the same
    extra settings and the same excluded files: the load changes nothing
    the second time. *)
Theorem loadSettings_saveSettings (version : string) data st :
  valid_defaults DEFAULT_SETTINGS UNION_TYPE_MATH_CONTEXT_SETTING_KEYS ->
  valid_defaults DEFAULT_EXTRA_SETTINGS UNION_TYPE_EXTRA_SETTING_KEYS ->
  load data = Ok st ->
  load (saveSettings version st) = Ok st.
Proof.
  intros Hvalid Hvalid' Hload.
  pose proof (loadSettings_clean _ _ Hvalid Hload) as Hclean.
  pose proof (loadSettings_invariant _ _ _ _ _ _ Hload) as [_ (rp & Hroot & _)].
  pose proof (load_extra_again _ _ Hvalid' Hload) as Hextra.
  assert (Hs : get (saveSettings version st) "settings" = Ok (JObj (settings st)))
    by reflexivity.
  assert (Hx : get (saveSettings version st) "extraSettings" = Ok (JObj (extraSettings st)))
    by reflexivity.
  assert (He : get (saveSettings version st) "excludedFiles" = Ok (excludedFiles st))
    by reflexivity.
  unfold loadSettings. rewrite Hs, Hx, He.
  replace (truthy (saveSettings version st)) with true by reflexivity. simpl.
  rewrite (load_paths_of_clean _ Hclean) by eauto; simpl.
  rewrite Hextra; simpl. now destruct st.
Qed.

End Settings_more.

(** ** Vault events: duplicate-free lists, lengths, renaming back *)

Module Events_more.
Import Events.

(** The list after [splice(index, 1)] at the index that [indexOf]
    found, next to the list before. *)
Lemma spliced (array : list string) (x : string) :
  (indexOf array x = -1 /\ (x ∉ array))
  \/ (exists before after : list string,
        array = (before ++ x :: after)%list /\ (x ∉ before)
        /\ (indexOf array x >=? 0) = true
        /\ splice1 array (indexOf array x) = (before ++ after)%list).
Proof.
  destruct (Events_facts.indexOf_spec array x) as [H|(before & after & -> & Hnot & Hi)];
    [now left|right].
  exists before, after. rewrite Hi, Events_facts.splice1_found.
  repeat split; try assumption. apply Z.geb_le. lia.
Qed.

(** X18 (delete on a duplicate-free list): when no path is listed twice
    among the excluded files, after the delete of [file_path] the path is
    not listed any more and the list is still duplicate-free. *)
Theorem on_delete_NoDup (st : State) (file_path : string) :
  NoDup (excludedFiles st) ->
  (file_path ∉ excludedFiles (on_delete st file_path))
  /\ NoDup (excludedFiles (on_delete st file_path)).
Proof.
  intros Hnd. unfold on_delete; simpl.
  destruct (spliced (excludedFiles st) file_path)
    as [[Hi Hnot]|(before & after & Heq & Hnot & Hi & Hs)].
  - rewrite Hi; simpl. auto.
  - rewrite Hi, Hs. rewrite Heq in Hnd.
    rewrite <- Permutation_middle in Hnd. apply NoDup_cons in Hnd as [Hx Hnd]. auto.
Qed.

(** X19 (rename on a duplicate-free list): when no path is listed twice
    among the excluded files and the new path is not listed, after a
    rename to a different path the new path is listed exactly when the old
    one was, the old one is not listed, and the list is still
    duplicate-free. *)
Theorem on_rename_NoDup (st : State) (file_path oldPath : string) :
  file_path <> oldPath ->
  NoDup (excludedFiles st) ->
  file_path ∉ excludedFiles st ->
  (file_path ∈ excludedFiles (on_rename st file_path oldPath) <-> oldPath ∈ excludedFiles st)
  /\ (oldPath ∉ excludedFiles (on_rename st file_path oldPath))
  /\ NoDup (excludedFiles (on_rename st file_path oldPath)).
Proof.
  intros Hne Hnd Hnew. unfold on_rename; simpl.
  destruct (spliced (excludedFiles st) oldPath)
    as [[Hi Hnot]|(before & after & Heq & Hnot & Hi & Hs)].
  - rewrite Hi; simpl. split; [tauto|]. auto.
  - rewrite Hi, Hs. rewrite Heq in Hnd, Hnew |- *.
    rewrite <- Permutation_middle in Hnd. apply NoDup_cons in Hnd as [Hx Hnd].
    assert (Hnew' : file_path ∉ (before ++ after)%list).
    { intros Hin. apply Hnew. rewrite elem_of_app, elem_of_cons.
      apply elem_of_app in Hin as [?|?]; auto. }
    split; [|split].
    + split; intros _.
      * rewrite elem_of_app, elem_of_cons. auto.
      * rewrite elem_of_app, list_elem_of_singleton. auto.
    + rewrite elem_of_app, list_elem_of_singleton. intros [?|?]; [contradiction|congruence].
    + apply NoDup_app. split; [exact Hnd|]. split; [|apply NoDup_singleton].
      intros y Hy ->%list_elem_of_singleton. contradiction.
Qed.

(** X20 (how long the list is): a rename never changes the number of
    entries of the list of excluded files; a delete removes one entry when
    the path is listed and none otherwise. *)
Theorem handlers_length (st : State) (file_path oldPath : string) :
  length (excludedFiles (on_rename st file_path oldPath)) = length (excludedFiles st)
  /\ length (excludedFiles (on_delete st file_path))
     = (length (excludedFiles st)
        - if decide (file_path ∈ excludedFiles st) then 1 else 0)%nat.
Proof.
  unfold on_rename, on_delete; simpl. split.
  - destruct (spliced (excludedFiles st) oldPath)
      as [[Hi Hnot]|(before & after & Heq & Hnot & Hi & Hs)].
    + rewrite Hi; reflexivity.
    + rewrite Hi, Hs, Heq. rewrite !length_app; simpl. lia.
  - destruct (spliced (excludedFiles st) file_path)
      as [[Hi Hnot]|(before & after & Heq & Hnot & Hi & Hs)].
    + rewrite Hi; simpl. rewrite decide_False by exact Hnot. lia.
    + rewrite Hi, Hs, Heq. rewrite decide_True.
      * rewrite !length_app; simpl. lia.
      * rewrite elem_of_app, elem_of_cons. auto.
Qed.

(** X21 (renaming back): after a rename from [oldPath] to a different
    path that has no entry in the table and is not among the excluded
    files, when [oldPath] has an entry, the rename in the other direction
    gives back the settings table, and a list of excluded files with the
    entries it had, in some order. *)
Theorem on_rename_back (st : State) (file_path oldPath : string) :
  file_path <> oldPath ->
  is_Some (settings st !! oldPath) ->
  settings st !! file_path = None ->
  file_path ∉ excludedFiles st ->
  settings (on_rename (on_rename st file_path oldPath) oldPath file_path) = settings st
  /\ excludedFiles (on_rename (on_rename st file_path oldPath) oldPath file_path)
     ≡ₚ excludedFiles st.
Proof.
  intros Hne [v Hv] Hnone Hnew. split.
  - unfold on_rename, read; simpl. apply map_eq. intros p.
    rewrite (lookup_delete_ne _ oldPath file_path) by congruence.
    rewrite lookup_insert_eq, Hv; simpl.
    destruct (decide (p = file_path)) as [->|Hp].
    + rewrite lookup_delete_eq. now rewrite Hnone.
    + rewrite lookup_delete_ne by congruence.
      destruct (decide (p = oldPath)) as [->|Ho].
      * now rewrite lookup_insert_eq.
      * rewrite lookup_insert_ne, lookup_delete_ne, lookup_insert_ne by congruence.
        reflexivity.
  - assert (Hform : forall s n o,
      excludedFiles (on_rename s n o)
      = if indexOf (excludedFiles s) o >=? 0
        then (splice1 (excludedFiles s) (indexOf (excludedFiles s) o) ++ [n])%list
        else excludedFiles s) by reflexivity.
    rewrite (Hform (on_rename st file_path oldPath)).
    set (excluded1 := excludedFiles (on_rename st file_path oldPath)).
    assert (H1 : (excluded1 = excludedFiles st /\ (oldPath ∉ excludedFiles st))
                 \/ exists rest : list string,
                      excluded1 = (rest ++ [file_path])%list /\ (file_path ∉ rest)
                      /\ excludedFiles st ≡ₚ oldPath :: rest).
    { unfold excluded1. rewrite Hform.
      destruct (spliced (excludedFiles st) oldPath)
        as [[Hi Hnot]|(before & after & Heq & Hnot & Hi & Hs)].
      - rewrite Hi; simpl. auto.
      - rewrite Hi, Hs. right. exists (before ++ after)%list. split; [reflexivity|].
        rewrite Heq in Hnew |- *. split; [|now rewrite Permutation_middle].
        intros Hin. apply Hnew. rewrite elem_of_app, elem_of_cons.
        apply elem_of_app in Hin as [?|?]; auto. }
    destruct H1 as [[-> Hold]|(rest & -> & Hrest & Hperm)].
    + destruct (spliced (excludedFiles st) file_path)
        as [[Hi _]|(before & after & Heq & _)].
      * rewrite Hi; reflexivity.
      * exfalso. apply Hnew. rewrite Heq, elem_of_app, elem_of_cons. auto.
    + destruct (spliced (rest ++ [file_path])%list file_path)
        as [[_ Hnot]|(before & after & Heq & Hnot & Hi & Hs)].
      * exfalso. apply Hnot. rewrite elem_of_app, list_elem_of_singleton. auto.
      * rewrite Hi, Hs.
        assert (Hsame : (before ++ after)%list ≡ₚ rest).
        { apply (Permutation_cons_inv (a := file_path)).
          rewrite Permutation_middle, <- Heq. now rewrite Permutation_app_comm. }
        rewrite Hsame, Hperm. now rewrite Permutation_app_comm.
Qed.

End Events_more.

(** ** File utilities: ancestors *)

Module FileTree_more.
Import FileTree.

Section Tree.

Context {TAbstractFile : Type} `{EqDecision TAbstractFile}.
Variable parent : TAbstractFile -> option TAbstractFile.
Variable isFolder : TAbstractFile -> bool.
Variable isRoot : TAbstractFile -> bool.

Lemma ancestor_loop_detached (file2 : TAbstractFile) (n : nat) :
  forall (ancestor : option TAbstractFile) (fuel : nat),
  detached_after parent isRoot n file2 ancestor ->
  ancestor_loop parent isRoot fuel ancestor file2 = None.
Proof.
  induction n as [|n IH]; intros [a|] fuel Hd; simpl in Hd; try contradiction.
  - apply FileTree_facts.ancestor_loop_null.
  - destruct Hd as (Hne & Hnr & Hd).
    destruct fuel as [|fuel]; simpl; [reflexivity|].
    rewrite decide_False by congruence. rewrite Hnr. now apply IH.
Qed.

(** X23 (a chain that ends at null before a root): when the parents of
    [file1] lead to [null] without passing [file2] or a root folder, and
    [file2] is neither [file1] nor the root folder,
    [isEqualToOrChildOf(file1, file2)] never returns. *)
Theorem isEqualToOrChildOf_detached (file1 file2 : TAbstractFile) (n fuel : nat) :
  detached_after parent isRoot n file2 (parent file1) ->
  file1 <> file2 ->
  isFolder file2 && isRoot file2 = false ->
  isEqualToOrChildOf parent isFolder isRoot fuel file1 file2 = None.
Proof.
  intros Hd Hne Hr. unfold isEqualToOrChildOf.
  rewrite decide_False by exact Hne. rewrite Hr.
  now apply (ancestor_loop_detached file2 n).
Qed.

(** The loop of [getAncestors] on a file that is not the root folder:
    it pushes the chain of parents up to [null]. *)
Lemma getAncestors_loop_ends (file : TAbstractFile) (n : nat) :
  isFolder file && isRoot file = false ->
  forall (ancestor : option TAbstractFile) (ancestors : list TAbstractFile) (fuel : nat),
  ends_after parent n ancestor ->
  (n < fuel)%nat ->
  getAncestors_loop parent isFolder isRoot fuel file ancestor ancestors
  = Some (ancestors ++ parents_chain parent n ancestor)%list.
Proof.
  intros Hr. induction n as [|n IH]; intros [a|] ancestors fuel He Hlt; simpl in He;
    try contradiction; (destruct fuel as [|fuel]; [lia|]); simpl.
  - now rewrite app_nil_r.
  - rewrite Hr. rewrite (IH _ _ _ He) by lia. now rewrite <- app_assoc.
Qed.

(** X24 (getAncestors returns the chain of parents): for a file whose
    parents lead to [null] after [n] files (the file itself being the
    first), [getAncestors] returns, given more than [n] units of fuel, the
    file alone when it is the root folder, and otherwise the [n] files of
    the chain, the topmost first and the file last. *)
Theorem getAncestors_ends (file : TAbstractFile) (n fuel : nat) :
  ends_after parent n (Some file) ->
  (n < fuel)%nat ->
  getAncestors parent isFolder isRoot fuel file
  = Some (if isFolder file && isRoot file then [file]
          else reverse (parents_chain parent n (Some file))).
Proof.
  intros He Hlt. unfold getAncestors.
  destruct (isFolder file && isRoot file) eqn:Hr.
  - destruct fuel as [|fuel]; [lia|]. simpl. rewrite Hr. reflexivity.
  - rewrite (getAncestors_loop_ends file n Hr _ _ _ He Hlt). reflexivity.
Qed.

Lemma parents_chain_adjacent (n : nat) : forall (ancestor : option TAbstractFile)
    (before after : list TAbstractFile) (c a : TAbstractFile),
  parents_chain parent n ancestor = (before ++ c :: a :: after)%list ->
  parent c = Some a.
Proof.
  induction n as [|n IH]; intros [x|] before after c a Heq; simpl in Heq;
    try (now destruct before).
  destruct before as [|y before]; simpl in Heq.
  - injection Heq as -> Heq. destruct n as [|n]; [discriminate|].
    destruct (parent c) as [p|]; simpl in Heq; [|discriminate].
    now injection Heq as ->.
  - injection Heq as -> Heq. eapply IH; eauto.
Qed.

Lemma parents_chain_members (n : nat) : forall (ancestor : option TAbstractFile)
    (x : TAbstractFile),
  x ∈ parents_chain parent n ancestor ->
  ancestor = Some x
  \/ exists f, ancestor = Some f /\ proper_ancestor parent x f.
Proof.
  induction n as [|n IH]; intros [f|] x Hin; simpl in Hin; try (now inversion Hin).
  apply elem_of_cons in Hin as [->|Hin]; [now left|right].
  exists f. split; [reflexivity|].
  apply FileTree_facts.proper_ancestor_parent.
  destruct (IH _ _ Hin) as [Hp|(p & Hp & Hx)]; eauto.
Qed.

Lemma parents_chain_complete (n : nat) : forall (f x : TAbstractFile),
  ends_after parent n (Some f) ->
  proper_ancestor parent x f ->
  x ∈ parents_chain parent n (Some f).
Proof.
  induction n as [|n IH]; intros f x He Hx; simpl in He; [contradiction|].
  simpl. apply list_elem_of_further.
  apply FileTree_facts.proper_ancestor_parent in Hx as [Hp|(p & Hp & Hx)];
    rewrite Hp in He |- *.
  - destruct n as [|n]; [contradiction|]. simpl. apply list_elem_of_here.
  - now apply IH.
Qed.

(** X25 (what getAncestors lists): for a file that is not the root
    folder and whose parents lead to [null], the list that [getAncestors]
    returns ends with the file, holds besides it exactly its proper
    ancestors, and has every file right after its parent. *)
Theorem getAncestors_lists (file : TAbstractFile) (n fuel : nat)
    (ancestors : list TAbstractFile) :
  isFolder file && isRoot file = false ->
  ends_after parent n (Some file) ->
  getAncestors parent isFolder isRoot fuel file = Some ancestors ->
  last ancestors = Some file
  /\ (forall x, x ∈ ancestors <-> x = file \/ proper_ancestor parent x file)
  /\ (forall (before after : list TAbstractFile) (a c : TAbstractFile),
        ancestors = (before ++ a :: c :: after)%list -> parent c = Some a).
Proof.
  intros Hr He Hg.
  assert (Hform : ancestors = reverse (parents_chain parent n (Some file))).
  { destruct (Nat.lt_ge_cases n fuel) as [Hlt|Hge].
    - unfold getAncestors in Hg.
      rewrite (getAncestors_loop_ends file n Hr _ _ _ He Hlt) in Hg.
      simpl in Hg. now injection Hg.
    - exfalso. clear -Hr He Hg Hge. unfold getAncestors in Hg.
      assert (Hnone : forall m (ancestor : option TAbstractFile) acc k,
        ends_after parent m ancestor -> (k <= m)%nat ->
        getAncestors_loop parent isFolder isRoot k file ancestor acc = None).
      { induction m as [|m IH]; intros [a|] acc k Hm Hk; simpl in Hm; try contradiction.
        - now replace k with 0%nat by lia.
        - destruct k as [|k]; simpl; [reflexivity|]. rewrite Hr. apply IH; [exact Hm|lia]. }
      now rewrite (Hnone n (Some file) [] fuel He Hge) in Hg. }
  subst ancestors. destruct n as [|n]; [contradiction|]. split; [|split].
  - simpl. rewrite reverse_cons. apply last_snoc.
  - intros x. rewrite elem_of_reverse. split.
    + intros [[= ->]|(f & [= <-] & Hx)]%parents_chain_members; auto.
    + intros [->|Hx]; [apply list_elem_of_here|now apply parents_chain_complete].
  - intros before after a c Heq.
    apply (f_equal reverse) in Heq. rewrite reverse_involutive in Heq.
    rewrite reverse_app, !reverse_cons, <- !app_assoc in Heq. simpl in Heq.
    exact (parents_chain_adjacent (S n) (Some file) _ _ _ _ Heq).
Qed.

End Tree.

End FileTree_more.

(** ** Descendants *)

Module Descendants_facts.
Import Descendants.

(** X26 (the callback is called once per file, in order): on a file or
    folder, [iterDescendantFiles] calls the callback for every file below
    it, itself included, once each and from left to right, and for no
    folder. *)
Theorem iterDescendantFiles_files {S : Type} (callback : string -> S -> S) :
  forall (file : TAbstractFile) (s : S),
  iterDescendantFiles file callback s = foldl (fun s path => callback path s) s (files file).
Proof.
  fix IH 1. intros [path|path children] s; simpl; [reflexivity|].
  revert s. induction children as [|child children IHc]; intros s; simpl; [reflexivity|].
  rewrite foldl_app, <- IH. apply IHc.
Qed.

End Descendants_facts.

(** ** Metadata cache *)

Module Cache_facts.
Import Cache.

Lemma find_first {A : Type} (f : A -> bool) (l : list A) :
  match find f l with
  | Some x => exists before after : list A,
      l = (before ++ x :: after)%list /\ f x = true
      /\ forall y, y ∈ before -> f y = false
  | None => forall y, y ∈ l -> f y = false
  end.
Proof.
  induction l as [|a l IH]; simpl.
  - intros y Hy. inversion Hy.
  - destruct (f a) eqn:Ha.
    + exists [], l. repeat split; [exact Ha|]. intros y Hy. inversion Hy.
    + destruct (find f l) as [x|].
      * destruct IH as (before & after & -> & Hx & Hb).
        exists (a :: before), after. repeat split; [exact Hx|].
        intros y [->|Hy]%elem_of_cons; auto.
      * intros y [->|Hy]%elem_of_cons; auto.
Qed.

Lemma at_boundary_true pos type' sectionCache :
  at_boundary pos type' sectionCache = true <->
  type sectionCache = type'
  /\ (FileIO.offset (FileIO.start (position sectionCache)) = pos
      \/ FileIO.offset (FileIO.end_ (position sectionCache)) = pos).
Proof.
  unfold at_boundary.
  rewrite andb_true_iff, orb_true_iff, String.eqb_eq, !Z.eqb_eq. reflexivity.
Qed.

(** X27 (the section found at a position): [getSectionCacheFromPos]
    returns the first section of the requested type that starts or ends at
    [pos]; it returns [undefined] exactly when the cache has no sections or
    none of them is such a section. *)
Theorem getSectionCacheFromPos_first (cache : CachedMetadata) (pos : Z) (type' : string) :
  match getSectionCacheFromPos cache pos type' with
  | Some found =>
      exists before after : list SectionCache,
        sections cache = Some (before ++ found :: after)%list
        /\ type found = type'
        /\ (FileIO.offset (FileIO.start (position found)) = pos
            \/ FileIO.offset (FileIO.end_ (position found)) = pos)
        /\ forall earlier, earlier ∈ before ->
             ~ (type earlier = type'
                /\ (FileIO.offset (FileIO.start (position earlier)) = pos
                    \/ FileIO.offset (FileIO.end_ (position earlier)) = pos))
  | None =>
      forall all, sections cache = Some all ->
        forall any, any ∈ all ->
          ~ (type any = type'
             /\ (FileIO.offset (FileIO.start (position any)) = pos
                 \/ FileIO.offset (FileIO.end_ (position any)) = pos))
  end.
Proof.
  unfold getSectionCacheFromPos. destruct (sections cache) as [all|]; [|discriminate].
  pose proof (find_first (at_boundary pos type') all) as Hf.
  destruct (find (at_boundary pos type') all) as [found|].
  - destruct Hf as (before & after & -> & Hx & Hb).
    apply at_boundary_true in Hx as [Ht Ho].
    exists before, after. repeat split; try assumption.
    intros earlier Hin Hq%at_boundary_true. rewrite (Hb _ Hin) in Hq. discriminate.
  - intros all' [= <-] any Hin Hq%at_boundary_true. rewrite (Hf _ Hin) in Hq. discriminate.
Qed.

Section App.

Variable getFileCache : string -> option CachedMetadata.

(** X28 (a link in a property comes first): for a file without cache
    [getPropertyOrLinkTextInProperty] returns [undefined]; for a file whose
    cache lists a link under the property [name] it returns the text of the
    first such link, whatever the frontmatter holds; otherwise it returns
    what the frontmatter holds under [name], [undefined] when the file has
    no frontmatter or no such property. *)
Theorem getPropertyOrLinkTextInProperty_cases (file name : string) :
  match getFileCache file with
  | None => getPropertyOrLinkTextInProperty getFileCache file name = Undefined
  | Some cache =>
      (forall (before after : list FrontmatterLinkCache) (l : FrontmatterLinkCache),
         frontmatterLinks cache = Some (before ++ l :: after)%list ->
         key l = name ->
         (forall earlier, earlier ∈ before -> key earlier <> name) ->
         getPropertyOrLinkTextInProperty getFileCache file name = JStr (link l))
      /\ ((forall links, frontmatterLinks cache = Some links ->
             forall l, l ∈ links -> key l <> name) ->
          getPropertyOrLinkTextInProperty getFileCache file name
          = match frontmatter cache with
            | Some properties => default Undefined (properties !! name)
            | None => Undefined
            end)
  end.
Proof.
  unfold getPropertyOrLinkTextInProperty, getPropertyLink, getProperty.
  destruct (getFileCache file) as [cache|]; [|reflexivity].
  destruct (frontmatterLinks cache) as [links|]; [|split; [discriminate|reflexivity]].
  pose proof (find_first (fun l => String.eqb (key l) name) links) as Hf.
  destruct (find _ links) as [found|]; split.
  - destruct Hf as (before' & after' & -> & Hx & Hb).
    intros before after l [= Heq] Hl Hearlier.
    apply String.eqb_eq in Hx.
    assert (Hsame : before = before' /\ l = found).
    { clear -Heq Hl Hx Hb Hearlier. revert before' Heq Hb.
      induction before as [|y before IH]; intros [|y' before'] Heq Hb; simpl in Heq.
      - now injection Heq.
      - injection Heq as Hy _. subst y'.
        pose proof (Hb l ltac:(apply list_elem_of_here)) as Hy.
        apply String.eqb_neq in Hy. contradiction.
      - injection Heq as Hy _. subst y.
        destruct (Hearlier found ltac:(apply list_elem_of_here)). exact Hx.
      - injection Heq as Hy Heq. subst y'.
        destruct (IH ltac:(intros; apply Hearlier; now apply list_elem_of_further)
                    before' Heq
                    ltac:(intros; apply Hb; now apply list_elem_of_further)) as [-> ->].
        auto. }
    destruct Hsame as [_ ->]. reflexivity.
  - destruct Hf as (before' & after' & -> & Hx & Hb). intros Hnone.
    apply String.eqb_eq in Hx. exfalso.
    apply (Hnone _ eq_refl found); [|exact Hx].
    rewrite elem_of_app, elem_of_cons. auto.
  - intros before after l [= ->] Hl _. exfalso.
    assert (Hin : l ∈ (before ++ l :: after)%list)
      by (rewrite elem_of_app, elem_of_cons; auto).
    apply Hf in Hin. apply String.eqb_neq in Hin. contradiction.
  - reflexivity.
Qed.

End App.

End Cache_facts.

(** ** Block identifiers: when the loop returns *)

Module BlockID_more.
Import BlockID.

(** X29 (the first free candidate is returned): when the first [k]
    candidates drawn are keys of [cache.blocks] and the next one is not,
    [generateBlockID] returns that one, given more than [k] units of fuel;
    it has then drawn [(k + 1) * length] values of [Math.random()]. *)
Theorem generateBlockID_returns (fuel : nat) (random : nat -> Q) (cache : CachedMetadata)
    (length : option nat) (k : nat) :
  (forall j, (j < k)%nat ->
     taken cache (random_digits random (j * default 6%nat length) (default 6%nat length))
     = true) ->
  taken cache (random_digits random (k * default 6%nat length) (default 6%nat length))
  = false ->
  (k < fuel)%nat ->
  generateBlockID fuel random cache length
  = Some (random_digits random (k * default 6%nat length) (default 6%nat length)).
Proof.
  intros Hbefore Hfree Hfuel. unfold generateBlockID.
  apply (BlockID_facts.generate_loop_returns random cache (default 6%nat length) k 0 fuel);
    assumption.
Qed.


End BlockID_more.

(** * Further runs on concrete inputs *)

Module Runs_more.
Import Examples.

(** ** Note IO *)

Lemma setRange_getRange_id_iff_witness :
  FileIO.setRange_callback (FileIO.range 1 3)
    (FileIO.getRange_content (FileIO.range 1 3) "abc") "abc" = "abc"
  <-> 3 = Z.of_nat (String.length "abc").
Proof. apply (FileIO_facts.setRange_getRange_id_iff "abc" 1 3); simpl; lia. Defined.

Lemma setRange_replaces_inclusive_witness :
  FileIO.setRange_callback (FileIO.range 0 4) "howdy," "hello world"
  = JSString.take (Z.to_nat 0) "hello world" ++ "howdy,"
    ++ JSString.drop (Z.to_nat (4 + 1)) "hello world"
  /\ Z.of_nat (String.length (FileIO.setRange_callback (FileIO.range 0 4) "howdy," "hello world"))
     = Z.of_nat (String.length "hello world") - (4 - 0 + 1)
       + Z.of_nat (String.length "howdy,").
Proof. apply (FileIO_ranges.setRange_replaces_inclusive "hello world" "howdy," 0 4); simpl; lia. Defined.

Lemma setRange_inserts_witness :
  FileIO.setRange_callback (FileIO.range 5 (5 - 1)) "," "hello world"
  = JSString.take (Z.to_nat 5) "hello world" ++ ","
    ++ JSString.drop (Z.to_nat 5) "hello world"
  /\ String.length (FileIO.setRange_callback (FileIO.range 5 (5 - 1)) "," "hello world")
     = (String.length "hello world" + String.length ",")%nat.
Proof. apply (FileIO_ranges.setRange_inserts "hello world" "," 5); simpl; lia. Defined.

Lemma getRange_setRange_witness :
  FileIO.getRange_content (FileIO.range 6 (6 + Z.of_nat (String.length "there")))
    (FileIO.setRange_callback (FileIO.range 6 10) "there" "hello world")
  = "there".
Proof. apply (FileIO_ranges.getRange_setRange "hello world" "there" 6 10); simpl; lia. Defined.

Lemma getRange_adjacent_witness :
  FileIO.getRange_content (FileIO.range 0 11) "hello world"
  = FileIO.getRange_content (FileIO.range 0 5) "hello world"
    ++ FileIO.getRange_content (FileIO.range 5 11) "hello world".
Proof. apply (FileIO_ranges.getRange_adjacent "hello world" 0 5 11); simpl; lia. Defined.

Lemma getRange_length_witness :
  Z.of_nat (String.length (FileIO.getRange_content (FileIO.range 6 20) "hello world"))
  = Z.max 0 (Z.min 20 (Z.of_nat (String.length "hello world"))
             - Z.min 6 (Z.of_nat (String.length "hello world"))).
Proof. apply (FileIO_ranges.getRange_length "hello world" 6 20); lia. Defined.

(** ** Loading *)

Lemma load_clean : Sample.loadSettings (Sample.persisted clean_settings) = Ok clean_state.
Proof. vm_compute. reflexivity. Qed.

Lemma load_odd : Sample.loadSettings (Sample.persisted odd_settings) = Ok odd_state.
Proof. vm_compute. reflexivity. Qed.

Lemma load_extra_data : Sample.loadSettings extra_data = Ok extra_state.
Proof. vm_compute. reflexivity. Qed.

Lemma sample_defaults_nonempty : Sample.DEFAULT_SETTINGS <> ∅.
Proof.
  intros H. apply (f_equal (fun m : gmap string JS => m !! "lineByLine")) in H.
  vm_compute in H. discriminate.
Qed.

Lemma sample_extra_defaults_nonempty : Sample.DEFAULT_EXTRA_SETTINGS <> ∅.
Proof.
  intros H. apply (f_equal (fun m : gmap string JS => m !! "searchMethod")) in H.
  vm_compute in H. discriminate.
Qed.

Lemma sample_defaults_valid :
  valid_defaults Sample.DEFAULT_SETTINGS Sample.UNION_TYPE_MATH_CONTEXT_SETTING_KEYS.
Proof.
  intros key d H. unfold Sample.DEFAULT_SETTINGS in H.
  repeat (apply lookup_insert_Some in H as [[<- <-]|[_ H]];
          [split; [discriminate|];
           intros allowableValues Hu; vm_compute in Hu;
           try discriminate; injection Hu as <-; reflexivity|]).
  rewrite lookup_empty in H. discriminate.
Qed.

Lemma sample_extra_defaults_valid :
  valid_defaults Sample.DEFAULT_EXTRA_SETTINGS Sample.UNION_TYPE_EXTRA_SETTING_KEYS.
Proof.
  intros key d H. unfold Sample.DEFAULT_EXTRA_SETTINGS in H.
  repeat (apply lookup_insert_Some in H as [[<- <-]|[_ H]];
          [split; [discriminate|];
           intros allowableValues Hu; vm_compute in Hu;
           try discriminate; injection Hu as <-; reflexivity|]).
  rewrite lookup_empty in H. discriminate.
Qed.

Lemma loadSettings_keeps_valid_witness :
  exists props, settings clean_state !! "a.md" = Some (JObj props)
    /\ props !! "lineByLine" = Some (JBool false).
Proof.
  apply (loadSettings_keeps_valid
           Sample.DEFAULT_SETTINGS Sample.UNION_TYPE_MATH_CONTEXT_SETTING_KEYS
           Sample.DEFAULT_EXTRA_SETTINGS Sample.UNION_TYPE_EXTRA_SETTING_KEYS
           (Sample.persisted clean_settings) clean_state clean_settings "a.md"
           {[ "lineByLine" := JBool false ]} "lineByLine" (JBool false) (JBool true)).
  - exact load_clean.
  - vm_compute. reflexivity.
  - vm_compute. reflexivity.
  - vm_compute. reflexivity.
  - discriminate.
  - vm_compute. reflexivity.
  - reflexivity.
  - intros allowableValues H. vm_compute in H. discriminate.
Defined.

Lemma loadSettings_missing_key_witness :
  exists props, settings clean_state !! "a.md" = Some (JObj props)
    /\ props !! "numberStyle"
       = if decide ("a.md" = VAULT_ROOT)
         then Sample.DEFAULT_SETTINGS !! "numberStyle" else None.
Proof.
  apply (loadSettings_missing_key
           Sample.DEFAULT_SETTINGS Sample.UNION_TYPE_MATH_CONTEXT_SETTING_KEYS
           Sample.DEFAULT_EXTRA_SETTINGS Sample.UNION_TYPE_EXTRA_SETTING_KEYS
           (Sample.persisted clean_settings) clean_state clean_settings "a.md"
           {[ "lineByLine" := JBool false ]} "numberStyle").
  - exact load_clean.
  - vm_compute. reflexivity.
  - vm_compute. reflexivity.
  - vm_compute. reflexivity.
Defined.

Lemma loadSettings_drops_wrong_type_witness :
  exists props, settings dirty_state !! "a.md" = Some (JObj props)
    /\ props !! "lineByLine"
       = if decide ("a.md" = VAULT_ROOT) then Some (JBool true) else None.
Proof.
  apply (loadSettings_drops_wrong_type
           Sample.DEFAULT_SETTINGS Sample.UNION_TYPE_MATH_CONTEXT_SETTING_KEYS
           Sample.DEFAULT_EXTRA_SETTINGS Sample.UNION_TYPE_EXTRA_SETTING_KEYS
           (Sample.persisted dirty_settings) dirty_state dirty_settings "a.md"
           (<["numberStyle" := JStr "bogus"]>
              (<["foo" := JNum 2%float]> (<["lineByLine" := JStr "yes"]> ∅)))
           "lineByLine" (JStr "yes") (JBool true)).
  - exact Runs.load_dirty.
  - vm_compute. reflexivity.
  - vm_compute. reflexivity.
  - vm_compute. reflexivity.
  - vm_compute. reflexivity.
  - vm_compute. reflexivity.
  - discriminate.
Defined.

Lemma loadSettings_non_object_entry_witness :
  settings odd_state !! "b.md"
  = Some (JObj (if decide ("b.md" = VAULT_ROOT) then Sample.DEFAULT_SETTINGS else ∅)).
Proof.
  apply (loadSettings_non_object_entry
           Sample.DEFAULT_SETTINGS Sample.UNION_TYPE_MATH_CONTEXT_SETTING_KEYS
           Sample.DEFAULT_EXTRA_SETTINGS Sample.UNION_TYPE_EXTRA_SETTING_KEYS
           (Sample.persisted odd_settings) odd_state odd_settings "b.md" (JStr "x")).
  - exact load_odd.
  - vm_compute. reflexivity.
  - vm_compute. reflexivity.
  - exact I.
Defined.


Lemma loadSettings_null_entry_witness :
  Sample.loadSettings (Sample.persisted {[ "a.md" := JNull ]}) = Throw TypeError.
Proof.
  apply (loadSettings_null_entry
           Sample.DEFAULT_SETTINGS Sample.UNION_TYPE_MATH_CONTEXT_SETTING_KEYS
           Sample.DEFAULT_EXTRA_SETTINGS Sample.UNION_TYPE_EXTRA_SETTING_KEYS
           (Sample.persisted {[ "a.md" := JNull ]}) {[ "a.md" := JNull ]} "a.md" JNull).
  - exact sample_defaults_nonempty.
  - vm_compute. reflexivity.
  - vm_compute. reflexivity.
  - right. reflexivity.
Defined.

Lemma loadSettings_rejects_older_data_witness :
  Sample.loadSettings
    (MathPlugin_saveSettings ({[ VAULT_ROOT := JObj Sample.DEFAULT_SETTINGS ]}, JArr []))
  = Throw TypeError.
Proof.
  apply (loadSettings_rejects_older_data
           Sample.DEFAULT_SETTINGS Sample.UNION_TYPE_MATH_CONTEXT_SETTING_KEYS
           Sample.DEFAULT_EXTRA_SETTINGS Sample.UNION_TYPE_EXTRA_SETTING_KEYS).
  exact sample_extra_defaults_nonempty.
Defined.

Lemma loadSettings_extraSettings_complete_witness :
  (Sample.DEFAULT_EXTRA_SETTINGS !! "searchMethod" = None ->
   extraSettings extra_state !! "searchMethod" = None)
  /\ (forall d, Sample.DEFAULT_EXTRA_SETTINGS !! "searchMethod" = Some d ->
        exists v, extraSettings extra_state !! "searchMethod" = Some v
          /\ typeof v = typeof d).
Proof.
  apply (loadSettings_extraSettings_complete
           Sample.DEFAULT_SETTINGS Sample.UNION_TYPE_MATH_CONTEXT_SETTING_KEYS
           Sample.DEFAULT_EXTRA_SETTINGS Sample.UNION_TYPE_EXTRA_SETTING_KEYS
           extra_data extra_state "searchMethod").
  exact load_extra_data.
Defined.

Lemma loadSettings_extraSettings_value_witness :
  (typeof (JStr "Simple") = typeof (JStr "Fuzzy") ->
   (forall allowableValues,
      Sample.UNION_TYPE_EXTRA_SETTING_KEYS !! "searchMethod" = Some allowableValues ->
      includes allowableValues (JStr "Simple") = true) ->
   extraSettings extra_state !! "searchMethod" = Some (JStr "Simple"))
  /\ (forall allowableValues,
        Sample.UNION_TYPE_EXTRA_SETTING_KEYS !! "searchMethod" = Some allowableValues ->
        includes allowableValues (JStr "Simple") = false ->
        extraSettings extra_state !! "searchMethod" = Some (JStr "Fuzzy")).
Proof.
  apply (loadSettings_extraSettings_value
           Sample.DEFAULT_SETTINGS Sample.UNION_TYPE_MATH_CONTEXT_SETTING_KEYS
           Sample.DEFAULT_EXTRA_SETTINGS Sample.UNION_TYPE_EXTRA_SETTING_KEYS
           extra_data extra_state extra_settings "searchMethod").
  - exact load_extra_data.
  - vm_compute. reflexivity.
  - vm_compute. reflexivity.
  - discriminate.
  - vm_compute. reflexivity.
Defined.

Lemma loadSettings_saveSettings_witness :
  Sample.loadSettings (saveSettings "1.0.0" dirty_state) = Ok dirty_state.
Proof.
  apply (loadSettings_saveSettings
           Sample.DEFAULT_SETTINGS Sample.UNION_TYPE_MATH_CONTEXT_SETTING_KEYS
           Sample.DEFAULT_EXTRA_SETTINGS Sample.UNION_TYPE_EXTRA_SETTING_KEYS
           "1.0.0" (Sample.persisted dirty_settings) dirty_state).
  - exact sample_defaults_valid.
  - exact sample_extra_defaults_valid.
  - exact Runs.load_dirty.
Defined.

Lemma loadSettings_completes_witness :
  exists st, Sample.loadSettings (Sample.persisted odd_settings) = Ok st.
Proof.
  apply (loadSettings_completes
           Sample.DEFAULT_SETTINGS Sample.UNION_TYPE_MATH_CONTEXT_SETTING_KEYS
           Sample.DEFAULT_EXTRA_SETTINGS Sample.UNION_TYPE_EXTRA_SETTING_KEYS
           (Sample.persisted odd_settings)).
  right. exists (JObj odd_settings), (JObj ∅).
  split; [vm_compute; reflexivity|]. split; [vm_compute; reflexivity|]. split.
  - intros path entry H. simpl in H. unfold odd_settings in H.
    rewrite map_to_list_singleton in H. apply list_elem_of_singleton in H.
    injection H as -> ->. intros [|]; discriminate.
  - intros [|]; discriminate.
Defined.

(** ** Events *)

Lemma renamed_state_NoDup : NoDup (Events.excludedFiles renamed_state).
Proof.
  apply NoDup_cons. split; [|apply NoDup_singleton].
  intros H%list_elem_of_singleton. discriminate.
Qed.

Lemma renamed_state_new : "b.md" ∉ Events.excludedFiles renamed_state.
Proof.
  intros [H|[H|H]%elem_of_cons]%elem_of_cons; [discriminate|discriminate|inversion H].
Qed.

Lemma on_delete_NoDup_witness :
  ("a.md" ∉ Events.excludedFiles (Events.on_delete renamed_state "a.md"))
  /\ NoDup (Events.excludedFiles (Events.on_delete renamed_state "a.md")).
Proof.
  apply (Events_more.on_delete_NoDup renamed_state "a.md").
  exact renamed_state_NoDup.
Defined.

Lemma on_rename_NoDup_witness :
  ("b.md" ∈ Events.excludedFiles (Events.on_rename renamed_state "b.md" "a.md")
   <-> "a.md" ∈ Events.excludedFiles renamed_state)
  /\ ("a.md" ∉ Events.excludedFiles (Events.on_rename renamed_state "b.md" "a.md"))
  /\ NoDup (Events.excludedFiles (Events.on_rename renamed_state "b.md" "a.md")).
Proof.
  apply (Events_more.on_rename_NoDup renamed_state "b.md" "a.md").
  - discriminate.
  - exact renamed_state_NoDup.
  - exact renamed_state_new.
Defined.

Lemma on_rename_back_witness :
  Events.settings
    (Events.on_rename (Events.on_rename renamed_state "b.md" "a.md") "a.md" "b.md")
  = Events.settings renamed_state
  /\ Events.excludedFiles
       (Events.on_rename (Events.on_rename renamed_state "b.md" "a.md") "a.md" "b.md")
     ≡ₚ Events.excludedFiles renamed_state.
Proof.
  apply (Events_more.on_rename_back renamed_state "b.md" "a.md").
  - discriminate.
  - exists (JObj {[ "lineByLine" := JBool false ]}). vm_compute. reflexivity.
  - vm_compute. reflexivity.
  - exact renamed_state_new.
Defined.

(** ** File utilities *)

(** In the vault of [file3], from the note [page]: its folder [chapter]
    is an ancestor. *)
Lemma isEqualToOrChildOf_rooted_witness :
  exists b,
    FileTree.isEqualToOrChildOf FileTree.file3_parent FileTree.file3_isFolder
      FileTree.file3_isRoot 2 FileTree.page FileTree.chapter = Some b
    /\ (b = true <->
        FileTree.page = FileTree.chapter
        \/ FileTree.file3_isFolder FileTree.chapter && FileTree.file3_isRoot FileTree.chapter
           = true
        \/ FileTree.proper_ancestor FileTree.file3_parent FileTree.chapter FileTree.page).
Proof.
  apply (FileTree_facts.isEqualToOrChildOf_rooted FileTree.file3_parent
           FileTree.file3_isFolder FileTree.file3_isRoot FileTree.page FileTree.chapter 1 2).
  - intros a H. destruct a; try discriminate H. reflexivity.
  - simpl. split; reflexivity.
  - lia.
Defined.

(** From the note [relic], whose folder has no parent and is no root. *)
Lemma isEqualToOrChildOf_detached_witness :
  FileTree.isEqualToOrChildOf FileTree.file3_parent FileTree.file3_isFolder
    FileTree.file3_isRoot 5 FileTree.relic FileTree.page = None.
Proof.
  apply (FileTree_more.isEqualToOrChildOf_detached FileTree.file3_parent
           FileTree.file3_isFolder FileTree.file3_isRoot FileTree.relic FileTree.page 1 5).
  - simpl. split; [discriminate|]. split; [reflexivity|exact I].
  - discriminate.
  - reflexivity.
Defined.

Lemma getAncestors_ends_witness :
  FileTree.getAncestors FileTree.file3_parent FileTree.file3_isFolder FileTree.file3_isRoot
    4 FileTree.page
  = Some (if FileTree.file3_isFolder FileTree.page && FileTree.file3_isRoot FileTree.page
          then [FileTree.page]
          else reverse (FileTree.parents_chain FileTree.file3_parent 3 (Some FileTree.page))).
Proof.
  apply (FileTree_more.getAncestors_ends FileTree.file3_parent FileTree.file3_isFolder
           FileTree.file3_isRoot FileTree.page 3 4).
  - simpl. exact I.
  - lia.
Defined.

Lemma getAncestors_lists_witness :
  last [FileTree.vault_root; FileTree.chapter; FileTree.page] = Some FileTree.page
  /\ (forall x, x ∈ [FileTree.vault_root; FileTree.chapter; FileTree.page] <->
        x = FileTree.page \/ FileTree.proper_ancestor FileTree.file3_parent x FileTree.page)
  /\ (forall (before after : list FileTree.file3) (a c : FileTree.file3),
        [FileTree.vault_root; FileTree.chapter; FileTree.page]
        = (before ++ a :: c :: after)%list ->
        FileTree.file3_parent c = Some a).
Proof.
  apply (FileTree_more.getAncestors_lists FileTree.file3_parent FileTree.file3_isFolder
           FileTree.file3_isRoot FileTree.page 3 4).
  - reflexivity.
  - simpl. exact I.
  - reflexivity.
Defined.

(** ** Block identifiers *)

Lemma generateBlockID_returns_witness :
  BlockID.generateBlockID 2 BlockID.cycle16 busy_cache None
  = Some (BlockID.random_digits BlockID.cycle16 (1 * default 6%nat None) (default 6%nat None)).
Proof.
  apply (BlockID_more.generateBlockID_returns 2 BlockID.cycle16 busy_cache None 1).
  - intros j Hj. assert (Hj0 : j = 0%nat) by lia. subst j. vm_compute. reflexivity.
  - vm_compute. reflexivity.
  - lia.
Defined.


End Runs_more.
